(** * GPD fan driver (drivers/hwmon/gpd-fan.c): a shallow embedding

    The driver talks to the embedded controller (EC) of GPD handhelds through
    an indexed I/O window on two ports and exposes one fan and one PWM channel
    to hwmon.  The C code is translated function by function into a small
    state monad over a [world] made of the driver's private data, the EC
    behind the two ports, the log of port accesses, the outcomes of the
    successive [mutex_lock_interruptible] calls and the tick counter. *)

From Stdlib Require Import ZArith List Lia Bool.
From stdpp Require Import base gmap strings.
Import ListNotations.
Local Open Scope Z_scope.

(** ** Kernel types, constants and helper macros

    The driver uses these through its includes; they are written here as
    the named kernel headers define them, for a 64-bit [long]. *)

Module Kernel.

(** Fixed-width integers are [Z] with the wrap-around of a C conversion
    written out. *)
Definition u8 (x : Z) : Z := x mod 2 ^ 8.
Definition u16 (x : Z) : Z := x mod 2 ^ 16.
Definition ulong (x : Z) : Z := x mod 2 ^ 64.
Definition s16 (x : Z) : Z := (x + 2 ^ 15) mod 2 ^ 16 - 2 ^ 15.
Definition s32 (x : Z) : Z := (x + 2 ^ 31) mod 2 ^ 32 - 2 ^ 31.
Definition long (x : Z) : Z := (x + 2 ^ 63) mod 2 ^ 64 - 2 ^ 63.

Definition is_u8 (x : Z) : Prop := 0 <= x < 2 ^ 8.
Definition is_u16 (x : Z) : Prop := 0 <= x < 2 ^ 16.
Definition is_long (x : Z) : Prop := - 2 ^ 63 <= x < 2 ^ 63.

(** errno values of include/uapi/asm-generic/errno*.h. *)
Definition EINTR : Z := 4.
Definition EINVAL : Z := 22.
Definition EOPNOTSUPP : Z := 95.
Definition ENODEV : Z := 19.

(** include/linux/jiffies.h:
    [time_after(a,b)] is [((long)((b) - (a)) < 0)] on [unsigned long]. *)
Definition time_after (a b : Z) : bool := long (ulong (b - a)) <? 0.

(** include/linux/minmax.h: [in_range(val, start, len)] on a 64-bit [val]
    is [in_range64]: [(val - start) < len] in [u64] arithmetic. *)
Definition in_range (val start len : Z) : bool :=
  ulong (ulong val - ulong start) <? ulong len.

(** include/linux/minmax.h: [clamp_val(val, lo, hi)] is
    [min(max(val, lo), hi)] in the type of [val]. *)
Definition clamp_val (val lo hi : Z) : Z := Z.min (Z.max val lo) hi.

(** include/linux/hwmon.h: the sensor types this driver looks at, and the
    attribute numbers of [enum hwmon_fan_attributes] and
    [enum hwmon_pwm_attributes]. *)
Inductive hwmon_sensor_types : Set :=
| hwmon_chip | hwmon_temp | hwmon_in | hwmon_curr | hwmon_power
| hwmon_energy | hwmon_humidity | hwmon_fan | hwmon_pwm | hwmon_intrusion.

Definition hwmon_fan_input : Z := 1.
Definition hwmon_pwm_input : Z := 0.
Definition hwmon_pwm_enable : Z := 1.

End Kernel.
Import Kernel.

(** ** Data model of the driver *)

Inductive gpd_board : Set := win_mini | win4_6800u | win_max_2.

(** [enum FAN_PWM_ENABLE]; a C enum is an integer, and the driver stores a
    range-checked [long] into it. *)
Definition FAN_PWM_ENABLE : Set := Z.
Definition DISABLE : FAN_PWM_ENABLE := 0.
Definition MANUAL : FAN_PWM_ENABLE := 1.
Definition AUTOMATIC : FAN_PWM_ENABLE := 2.

Record gpd_board_quirk : Set := {
  board_name : string;
  board : gpd_board;
  addr_port : Z;
  data_port : Z;
  manual_control_enable : Z;
  rpm_read : Z;
  pwm_write : Z;
  pwm_max : Z;
}.

Definition gpd_win_mini_quirk : gpd_board_quirk := {|
  board_name := "win_mini";
  board := win_mini;
  addr_port := 0x4E;
  data_port := 0x4F;
  manual_control_enable := 0x047A;
  rpm_read := 0x0478;
  pwm_write := 0x047A;
  pwm_max := 244;
|}.

Definition gpd_win4_quirk : gpd_board_quirk := {|
  board_name := "win4";
  board := win4_6800u;
  addr_port := 0x2E;
  data_port := 0x2F;
  manual_control_enable := 0xC311;
  rpm_read := 0xC880;
  pwm_write := 0xC311;
  pwm_max := 127;
|}.

Definition gpd_wm2_quirk : gpd_board_quirk := {|
  board_name := "wm2";
  board := win_max_2;
  addr_port := 0x4E;
  data_port := 0x4F;
  manual_control_enable := 0x0275;
  rpm_read := 0x0218;
  pwm_write := 0x1809;
  pwm_max := 184;
|}.

Definition gpd_module_quirks : list gpd_board_quirk :=
  [gpd_win_mini_quirk; gpd_win4_quirk; gpd_wm2_quirk].

(** [gpd_driver_priv], the single mutable instance of the driver. *)
Record gpd_driver_priv_t : Set := {
  pwm_enable : FAN_PWM_ENABLE;
  pwm_value : Z;
  fan_speed_cached : Z;
  read_pwm_cached : Z;
  fan_speed_last_update : Z;
  read_pwm_last_update : Z;
  quirk : gpd_board_quirk;
}.

Definition set_pwm_enable (v : FAN_PWM_ENABLE) (p : gpd_driver_priv_t) :=
  {| pwm_enable := v; pwm_value := pwm_value p;
     fan_speed_cached := fan_speed_cached p;
     read_pwm_cached := read_pwm_cached p;
     fan_speed_last_update := fan_speed_last_update p;
     read_pwm_last_update := read_pwm_last_update p; quirk := quirk p |}.

Definition set_pwm_value (v : Z) (p : gpd_driver_priv_t) :=
  {| pwm_enable := pwm_enable p; pwm_value := v;
     fan_speed_cached := fan_speed_cached p;
     read_pwm_cached := read_pwm_cached p;
     fan_speed_last_update := fan_speed_last_update p;
     read_pwm_last_update := read_pwm_last_update p; quirk := quirk p |}.

Definition set_fan_speed (v t : Z) (p : gpd_driver_priv_t) :=
  {| pwm_enable := pwm_enable p; pwm_value := pwm_value p;
     fan_speed_cached := v;
     read_pwm_cached := read_pwm_cached p;
     fan_speed_last_update := t;
     read_pwm_last_update := read_pwm_last_update p; quirk := quirk p |}.

Definition set_read_pwm (v t : Z) (p : gpd_driver_priv_t) :=
  {| pwm_enable := pwm_enable p; pwm_value := pwm_value p;
     fan_speed_cached := fan_speed_cached p;
     read_pwm_cached := v;
     fan_speed_last_update := fan_speed_last_update p;
     read_pwm_last_update := t; quirk := quirk p |}.

(** ** The embedded controller behind the two ports

    The EC RAM is reached through a configuration window: the address port
    selects configuration register 0x2E (index) or 0x2F (data) and the data
    port accesses it; index 0x11 and 0x10 latch the high and low byte of the
    RAM offset and index 0x12 is the byte at that offset. *)

Module EC.

Record hw : Type := {
  wired_addr : Z;          (* the port decoded as address port *)
  wired_data : Z;          (* the port decoded as data port *)
  sel : Z;                 (* last byte written to the address port *)
  idx : Z;                 (* configuration register 0x2E *)
  off_hi : Z;              (* index 0x11 *)
  off_lo : Z;              (* index 0x10 *)
  ram : gmap Z Z;          (* EC RAM, absent cells read 0 *)
}.

Definition peek (h : hw) (offset : Z) : Z := default 0 (ram h !! offset).

Definition latched (h : hw) : Z := Z.lor (Z.shiftl (off_hi h) 8) (off_lo h).

Definition with_sel (v : Z) (h : hw) : hw :=
  {| wired_addr := wired_addr h; wired_data := wired_data h; sel := v;
     idx := idx h; off_hi := off_hi h; off_lo := off_lo h; ram := ram h |}.
Definition with_idx (v : Z) (h : hw) : hw :=
  {| wired_addr := wired_addr h; wired_data := wired_data h; sel := sel h;
     idx := v; off_hi := off_hi h; off_lo := off_lo h; ram := ram h |}.
Definition with_hi (v : Z) (h : hw) : hw :=
  {| wired_addr := wired_addr h; wired_data := wired_data h; sel := sel h;
     idx := idx h; off_hi := v; off_lo := off_lo h; ram := ram h |}.
Definition with_lo (v : Z) (h : hw) : hw :=
  {| wired_addr := wired_addr h; wired_data := wired_data h; sel := sel h;
     idx := idx h; off_hi := off_hi h; off_lo := v; ram := ram h |}.
Definition poke (v : Z) (h : hw) : hw :=
  {| wired_addr := wired_addr h; wired_data := wired_data h; sel := sel h;
     idx := idx h; off_hi := off_hi h; off_lo := off_lo h;
     ram := <[latched h := v]> (ram h) |}.

(** One byte written to a port. *)
Definition port_out (v port : Z) (h : hw) : hw :=
  if port =? wired_addr h then with_sel v h
  else if port =? wired_data h then
    if sel h =? 0x2E then with_idx v h
    else if sel h =? 0x2F then
      if idx h =? 0x11 then with_hi v h
      else if idx h =? 0x10 then with_lo v h
      else if idx h =? 0x12 then poke v h
      else h
    else h
  else h.

(** One byte read from a port; an undecoded read floats to 0xFF. *)
Definition port_in (port : Z) (h : hw) : Z :=
  if (port =? wired_data h) && (sel h =? 0x2F) && (idx h =? 0x12)
  then u8 (peek h (latched h))
  else 0xFF.

End EC.

(** ** The world the driver runs in *)

(** What the driver does to its environment, in order: waits on
    [gpd_fan_lock] (with the value the wait returned), releases it, writes a
    byte to a port, reads a byte from a port. *)
Inductive io_event : Set :=
| Lock (ret : Z)
| Unlock
| Outb (value port : Z)
| Inb (port value : Z).

(** Contents of the [u8] automatic variables the C code declares without an
    initialiser and may use after a failed read. *)
Record indeterminate : Set := {
  PWMCTR0 : Z;
  chip_id0 : Z;
  chip_ver0 : Z;
}.

Record world : Type := {
  priv : gpd_driver_priv_t;
  ec : EC.hw;
  io_log : list io_event;
  (** outcome of each coming [mutex_lock_interruptible]: [true] when a
      signal interrupts the wait; an exhausted list grants the lock *)
  signals : list bool;
  (** the tick counter, as one call of the driver sees it *)
  jiffies : Z;
  stack : indeterminate;
}.

Definition with_priv (f : gpd_driver_priv_t -> gpd_driver_priv_t) (w : world) :=
  {| priv := f (priv w); ec := ec w; io_log := io_log w;
     signals := signals w; jiffies := jiffies w; stack := stack w |}.
Definition with_ec (h : EC.hw) (w : world) :=
  {| priv := priv w; ec := h; io_log := io_log w;
     signals := signals w; jiffies := jiffies w; stack := stack w |}.
Definition with_signals (l : list bool) (w : world) :=
  {| priv := priv w; ec := ec w; io_log := io_log w;
     signals := l; jiffies := jiffies w; stack := stack w |}.
Definition log (e : io_event) (w : world) :=
  {| priv := priv w; ec := ec w; io_log := io_log w ++ [e];
     signals := signals w; jiffies := jiffies w; stack := stack w |}.

(** Does a signal interrupt the next wait on the lock? *)
Definition interrupted (w : world) : bool :=
  match signals w with
  | true :: _ => true
  | _ => false
  end.

(** State monad of the driver code. *)
Definition M (A : Type) : Type := world -> A * world.
Definition ret {A} (a : A) : M A := fun w => (a, w).
Definition bind {A B} (m : M A) (k : A -> M B) : M B :=
  fun w => let (a, w') := m w in k a w'.
Definition get {A} (f : world -> A) : M A := fun w => (f w, w).
Definition modify_priv (f : gpd_driver_priv_t -> gpd_driver_priv_t) : M unit :=
  fun w => (tt, with_priv f w).

Declare Scope drv_scope.
Delimit Scope drv_scope with drv.
Notation "'do' x <- m ; k" := (bind m (fun x => k))
  (at level 10, x name, m at level 100, k at level 200) : drv_scope.
Notation "'do' ' p <- m ; k" := (bind m (fun x => let 'p := x in k))
  (at level 10, p pattern, m at level 100, k at level 200) : drv_scope.
Notation "'run' m ; k" := (bind m (fun _ => k))
  (at level 10, m at level 100, k at level 200) : drv_scope.
Local Open Scope drv_scope.

Definition outb (value port : Z) : M unit := fun w =>
  (tt, log (Outb (u8 value) port)
         (with_ec (EC.port_out (u8 value) port (ec w)) w)).

Definition inb (port : Z) : M Z := fun w =>
  let v := EC.port_in port (ec w) in (v, log (Inb port v) w).

(** Returns 0 when the lock is acquired and [-EINTR] when a signal arrives
    while waiting. *)
Definition mutex_lock_interruptible : M Z := fun w =>
  let r := if interrupted w then - EINTR else 0 in
  (r, log (Lock r) (with_signals (tl (signals w)) w)).

Definition mutex_unlock : M unit := fun w => (tt, log Unlock w).

(** ** Helper functions to handle EC read/write *)

(** [val] is the content of [*val] before the call; the second component of
    the result is its content after it. *)
Definition gpd_ecram_read (q : gpd_board_quirk) (offset : Z) (val : Z)
  : M (Z * Z) :=
  let addr_port := addr_port q in
  let data_port := data_port q in
  do r <- mutex_lock_interruptible;
  if negb (r =? 0) then ret (r, val) else
  run outb 0x2E addr_port;
  run outb 0x11 data_port;
  run outb 0x2F addr_port;
  run outb (u8 (Z.land (Z.shiftr offset 8) 0xFF)) data_port;
  run outb 0x2E addr_port;
  run outb 0x10 data_port;
  run outb 0x2F addr_port;
  run outb (u8 (Z.land offset 0xFF)) data_port;
  run outb 0x2E addr_port;
  run outb 0x12 data_port;
  run outb 0x2F addr_port;
  do v <- inb data_port;
  run mutex_unlock;
  ret (0, v).

Definition gpd_ecram_write (q : gpd_board_quirk) (offset : Z) (value : Z)
  : M Z :=
  let addr_port := addr_port q in
  let data_port := data_port q in
  do r <- mutex_lock_interruptible;
  if negb (r =? 0) then ret r else
  run outb 0x2E addr_port;
  run outb 0x11 data_port;
  run outb 0x2F addr_port;
  run outb (u8 (Z.land (Z.shiftr offset 8) 0xFF)) data_port;
  run outb 0x2E addr_port;
  run outb 0x10 data_port;
  run outb 0x2F addr_port;
  run outb (u8 (Z.land offset 0xFF)) data_port;
  run outb 0x2E addr_port;
  run outb 0x12 data_port;
  run outb 0x2F addr_port;
  run outb value data_port;
  run mutex_unlock;
  ret 0.

(** ** Per-model fan logic *)

Definition the_quirk : M gpd_board_quirk := get (fun w => quirk (priv w)).

(** [high] and [low] are only read after both reads succeeded, so their
    content before the calls does not matter. *)
Definition gpd_generic_read_rpm_uncached : M Z :=
  do q <- the_quirk;
  do '(r, high) <- gpd_ecram_read q (rpm_read q) 0;
  if negb (r =? 0) then ret r else
  do '(r, low) <- gpd_ecram_read q (u16 (rpm_read q + 1)) 0;
  if negb (r =? 0) then ret r else
  ret (s32 (Z.lor (Z.shiftl (u16 high) 8) low)).

(** The results of the accesses to 0x1841, 0x2000 and 0x1060 are dropped as
    in the C code; [PWMCTR], [chip_id] and [chip_ver] keep their
    indeterminate content when the read that should fill them fails. *)
Definition gpd_win4_read_rpm_uncached : M Z :=
  do q <- the_quirk;
  do PWMCTR <- get (fun w => u8 (PWMCTR0 (stack w)));
  do '(_, PWMCTR) <- gpd_ecram_read q 0x1841 PWMCTR;
  run (if negb (PWMCTR =? 0x7F)
       then (do _ <- gpd_ecram_write q 0x1841 0x7F; ret tt)
       else ret tt);
  do r <- gpd_generic_read_rpm_uncached;
  if r <? 0 then ret r else
  run (if r =? 0 then
         (* re-init EC *)
         do chip_id <- get (fun w => u8 (chip_id0 (stack w)));
         do '(_, chip_id) <- gpd_ecram_read q 0x2000 chip_id;
         if chip_id =? 0x55 then
           do chip_ver <- get (fun w => u8 (chip_ver0 (stack w)));
           do '(rv, chip_ver) <- gpd_ecram_read q 0x1060 chip_ver;
           if negb (rv =? 0)
           then (do _ <- gpd_ecram_write q 0x1060 (u8 (Z.lor chip_ver 0x80));
                 ret tt)
           else ret tt
         else ret tt
       else ret tt);
  ret r.

(** [for (u16 i = lo; i <= hi; i++) body(i)]. *)
Fixpoint for_u16 (fuel : nat) (i hi : Z) (body : Z -> M unit) : M unit :=
  match fuel with
  | O => ret tt
  | S fuel' =>
      if i <=? hi then (run body i; for_u16 fuel' (u16 (i + 1)) hi body)
      else ret tt
  end.

Definition gpd_wm2_read_rpm_uncached : M Z :=
  do q <- the_quirk;
  run for_u16 4 0x1841 0x1843 (fun pwm_ctr_offset =>
        do PWMCTR <- get (fun w => u8 (PWMCTR0 (stack w)));
        do '(_, PWMCTR) <- gpd_ecram_read q pwm_ctr_offset PWMCTR;
        if negb (PWMCTR =? 0xB8)
        then (do _ <- gpd_ecram_write q pwm_ctr_offset 0xB8; ret tt)
        else ret tt);
  gpd_generic_read_rpm_uncached.

Definition gpd_wm2_read_pwm_uncached : M Z :=
  do q <- the_quirk;
  do '(r, var) <- gpd_ecram_read q (pwm_write q) 0;
  if r <? 0 then ret (s16 r) else
  ret (s16 (Z.quot (var * 255) (pwm_max q))).

(** [val] is a [u8] parameter: the argument is converted on entry. *)
Definition gpd_generic_write_pwm (val : Z) : M Z :=
  do q <- the_quirk;
  (* PWM value's range in EC is 1 - pwm_max, cast 0 - 255 to it. *)
  let actual := u8 (Z.quot (u8 val * (pwm_max q - 1)) 255 + 1) in
  gpd_ecram_write q (pwm_write q) actual.

Definition gpd_win_mini_write_pwm (val : Z) : M Z :=
  do en <- get (fun w => pwm_enable (priv w));
  if en =? MANUAL then gpd_generic_write_pwm val else ret 0.

Definition gpd_wm2_write_pwm (val : Z) : M Z :=
  do en <- get (fun w => pwm_enable (priv w));
  if negb (en =? DISABLE) then gpd_generic_write_pwm val else ret 0.

(** Write value for pwm1 *)
Definition gpd_write_pwm (val : Z) : M Z :=
  do q <- the_quirk;
  match board q with
  | win_mini => gpd_win_mini_write_pwm val
  | win4_6800u => gpd_generic_write_pwm val
  | win_max_2 => gpd_wm2_write_pwm val
  end.

Definition gpd_win_mini_set_pwm_enable (pwm_enable : FAN_PWM_ENABLE) : M Z :=
  if pwm_enable =? DISABLE then gpd_generic_write_pwm 255
  else if pwm_enable =? MANUAL then
    do v <- get (fun w => pwm_value (priv w)); gpd_generic_write_pwm v
  else if pwm_enable =? AUTOMATIC then
    do q <- the_quirk; gpd_ecram_write q (pwm_write q) 0
  else ret 0.

Definition gpd_wm2_set_pwm_enable (enable : FAN_PWM_ENABLE) : M Z :=
  do q <- the_quirk;
  if enable =? DISABLE then
    do r <- gpd_generic_write_pwm 255;
    if negb (r =? 0) then ret r else
    gpd_ecram_write q (manual_control_enable q) 1
  else if enable =? MANUAL then
    do v <- get (fun w => pwm_value (priv w));
    do r <- gpd_generic_write_pwm v;
    if negb (r =? 0) then ret r else
    gpd_ecram_write q (manual_control_enable q) 1
  else if enable =? AUTOMATIC then
    do r <- gpd_ecram_write q (manual_control_enable q) 0;
    ret r
  else ret 0.

(** Write value for pwm1_enable *)
Definition gpd_set_pwm_enable (enable : FAN_PWM_ENABLE) : M Z :=
  do q <- the_quirk;
  match board q with
  | win_mini | win4_6800u => gpd_win_mini_set_pwm_enable enable
  | win_max_2 => gpd_wm2_set_pwm_enable enable
  end.

(** ** Cached reads and the hwmon callbacks

    [HZ], the number of ticks per second, is a constant of the kernel
    configuration. *)

Section Hwmon.

Variable HZ : Z.

(** Read value for fan1_input.  The inner [Some r] is the early
    [return ret] of the refresh block; both uses of [jiffies] see the same
    tick. *)
Definition gpd_read_rpm : M Z :=
  do now <- get jiffies;
  do last <- get (fun w => fan_speed_last_update (priv w));
  do early <-
    (* Update per 1000 milliseconds *)
    (if time_after now (ulong (last + HZ)) then
       do q <- the_quirk;
       do r <- match board q with
               | win_mini => gpd_generic_read_rpm_uncached
               | win4_6800u => gpd_win4_read_rpm_uncached
               | win_max_2 => gpd_wm2_read_rpm_uncached
               end;
       if r <? 0 then ret (Some r) else
       run modify_priv (set_fan_speed (u16 r) now);
       ret None
     else ret None);
  match early with
  | Some r => ret r
  | None => get (fun w => fan_speed_cached (priv w))
  end.

(** Read value for pwm1 *)
Definition gpd_read_pwm : M Z :=
  do q <- the_quirk;
  match board q with
  | win_mini | win4_6800u => get (fun w => pwm_value (priv w))
  | win_max_2 =>
      do now <- get jiffies;
      do last <- get (fun w => read_pwm_last_update (priv w));
      do early <-
        (* Update per 1000 milliseconds *)
        (if time_after now (ulong (last + HZ)) then
           do r <- gpd_wm2_read_pwm_uncached;
           if r <? 0 then ret (Some r) else
           run modify_priv (set_read_pwm (u8 r) now);
           ret None
         else ret None);
      match early with
      | Some r => ret r
      | None => get (fun w => read_pwm_cached (priv w))
      end
  end.

Definition gpd_fan_hwmon_is_visible (type : hwmon_sensor_types) (attr : Z)
  : Z :=
  match type with
  | hwmon_fan => if attr =? hwmon_fan_input then 292 (* 0444 *) else 0
  | hwmon_pwm =>
      if (attr =? hwmon_pwm_enable) || (attr =? hwmon_pwm_input)
      then 420 (* 0644 *) else 0
  | _ => 0
  end.

(** [val] is [*val] before the call; the result pairs the return value
    with [*val] after it. *)
Definition gpd_fan_hwmon_read (type : hwmon_sensor_types) (attr : Z)
    (val : Z) : M (Z * Z) :=
  match type with
  | hwmon_fan =>
      if attr =? hwmon_fan_input then
        do r <- gpd_read_rpm;
        if r <? 0 then ret (r, val) else ret (0, r)
      else ret (- EOPNOTSUPP, val)
  | hwmon_pwm =>
      if attr =? hwmon_pwm_enable then
        do en <- get (fun w => pwm_enable (priv w)); ret (0, en)
      else if attr =? hwmon_pwm_input then
        do r <- gpd_read_pwm;
        if r <? 0 then ret (r, val) else ret (0, r)
      else ret (- EOPNOTSUPP, val)
  | _ => ret (- EOPNOTSUPP, val)
  end.

Definition gpd_fan_hwmon_write (type : hwmon_sensor_types) (attr : Z)
    (val : Z) : M Z :=
  match type with
  | hwmon_pwm =>
      if attr =? hwmon_pwm_enable then
        if negb (in_range val 0 3) then ret (- EINVAL) else
        run modify_priv (set_pwm_enable val);
        do en <- get (fun w => pwm_enable (priv w));
        gpd_set_pwm_enable en
      else if attr =? hwmon_pwm_input then
        let var := u8 (clamp_val val 0 255) in
        run modify_priv (set_pwm_value var);
        gpd_write_pwm var
      else ret (- EOPNOTSUPP)
  | _ => ret (- EOPNOTSUPP)
  end.

(** The part of [gpd_fan_init] that fills [gpd_driver_priv] once the
    board is matched. *)
Definition gpd_fan_init_priv (match_ : gpd_board_quirk) (jiffies : Z)
  : gpd_driver_priv_t :=
  let jiffies_latest := ulong (jiffies - HZ) in
  {| pwm_enable := AUTOMATIC;
     pwm_value := 255;
     fan_speed_cached := 0;
     read_pwm_cached := 0;
     fan_speed_last_update := jiffies_latest;
     read_pwm_last_update := jiffies_latest;
     quirk := match_ |}.

End Hwmon.

Definition gpd_fan_remove : M Z :=
  run modify_priv (set_pwm_enable AUTOMATIC);
  do _ <- gpd_set_pwm_enable AUTOMATIC;
  ret 0.

(** ** Concrete worlds used in the examples *)

Definition power_on (q : gpd_board_quirk) (cells : gmap Z Z) : EC.hw :=
  {| EC.wired_addr := addr_port q; EC.wired_data := data_port q;
     EC.sel := 0; EC.idx := 0; EC.off_hi := 0; EC.off_lo := 0;
     EC.ram := cells |}.

Definition boot (HZ : Z) (q : gpd_board_quirk) (cells : gmap Z Z)
    (sigs : list bool) (now : Z) : world :=
  {| priv := gpd_fan_init_priv HZ q now;
     ec := power_on q cells;
     io_log := [];
     signals := sigs;
     jiffies := now;
     stack := {| PWMCTR0 := 0; chip_id0 := 0; chip_ver0 := 0 |} |}.

Definition at_time (t : Z) (w : world) : world :=
  {| priv := priv w; ec := ec w; io_log := io_log w;
     signals := signals w; jiffies := ulong t; stack := stack w |}.

(** A win4 whose fan reads 0 RPM, with the expected chip identifier and
    chip version 3; no wait is interrupted. *)
Definition stalled_win4 : world :=
  at_time 5001
    (boot 1000 gpd_win4_quirk {[ 0x2000 := 0x55; 0x1060 := 3 ]} [] 5000).

(** The same, but the wait of the sixth access, the read of the chip
    version, is interrupted. *)
Definition stalled_win4_version_read_fails : world :=
  at_time 5001
    (boot 1000 gpd_win4_quirk {[ 0x2000 := 0x55; 0x1060 := 3 ]}
       [false; false; false; false; false; true] 5000).

(** A win4 and a win-max-2 turning at 1200 RPM, the wait of the first
    access interrupted. *)
Definition win4_first_wait_interrupted : world :=
  boot 1000 gpd_win4_quirk {[ 0xC880 := 0x04; 0xC881 := 0xB0 ]} [true] 5000.

Definition wm2_first_wait_interrupted : world :=
  boot 1000 gpd_wm2_quirk {[ 0x0218 := 0x04; 0x0219 := 0xB0 ]} [true] 5000.

(** A win-mini right after [gpd_fan_init], at 1000 ticks per second: mode
    Automatic, the time stamps exactly [HZ] ticks old, the fan at 1200 RPM. *)
Definition win_mini_at_init : world :=
  boot 1000 gpd_win_mini_quirk {[ 0x0478 := 0x04; 0x0479 := 0xB0 ]} [] 5000.

(** The same win-mini, the wait of the second access interrupted. *)
Definition win_mini_second_wait_interrupted : world :=
  boot 1000 gpd_win_mini_quirk {[ 0x0478 := 0x04; 0x0479 := 0xB0 ]}
    [false; true] 5000.

(** A win-max-2 with duty 128 stored, the wait of the second access
    interrupted. *)
Definition wm2_second_wait_interrupted : world :=
  with_priv (set_pwm_value 128)
    (boot 1000 gpd_wm2_quirk {[ 0x0275 := 0 ]} [false; true] 5000).

(** A win-max-2 one tick after [gpd_fan_init], its PWM register at 255,
    above [pwm_max]. *)
Definition wm2_register_above_max : world :=
  at_time 5001 (boot 1000 gpd_wm2_quirk {[ 0x1809 := 255 ]} [] 5000).

(** A win-max-2 right after [gpd_fan_init], its PWM register at 92. *)
Definition wm2_at_init : world :=
  boot 1000 gpd_wm2_quirk {[ 0x1809 := 92 ]} [] 5000.

(** ** Vocabulary of the statements *)

(** The ports of the board profile are the ones the EC decodes. *)
Definition wired (q : gpd_board_quirk) (w : world) : Prop :=
  EC.wired_addr (ec w) = addr_port q /\
  EC.wired_data (ec w) = data_port q /\
  addr_port q <> data_port q.

(** No wait on the lock will be interrupted. *)
Definition quiet (w : world) : Prop :=
  Forall (fun b => b = false) (signals w).

(** The eleven port writes that latch [offset] and select the data byte. *)
Definition select_offset (q : gpd_board_quirk) (offset : Z) : list io_event :=
  [ Outb 0x2E (addr_port q); Outb 0x11 (data_port q);
    Outb 0x2F (addr_port q); Outb (Z.shiftr offset 8) (data_port q);
    Outb 0x2E (addr_port q); Outb 0x10 (data_port q);
    Outb 0x2F (addr_port q); Outb (Z.land offset 0xFF) (data_port q);
    Outb 0x2E (addr_port q); Outb 0x12 (data_port q);
    Outb 0x2F (addr_port q) ].

Definition read_txn (q : gpd_board_quirk) (offset value : Z) : list io_event :=
  Lock 0 :: select_offset q offset ++ [Inb (data_port q) value; Unlock].

Definition write_txn (q : gpd_board_quirk) (offset value : Z) : list io_event :=
  Lock 0 :: select_offset q offset ++ [Outb value (data_port q); Unlock].

(** The window once [offset] is latched and the data byte selected. *)
Definition settled (offset : Z) (cells : gmap Z Z) (h : EC.hw) : EC.hw :=
  {| EC.wired_addr := EC.wired_addr h; EC.wired_data := EC.wired_data h;
     EC.sel := 0x2F; EC.idx := 0x12;
     EC.off_hi := Z.shiftr offset 8; EC.off_lo := Z.land offset 0xFF;
     EC.ram := cells |}.

(** The world after an interrupted access, a completed read and a completed
    write. *)
Definition after_intr (w : world) : world :=
  log (Lock (- EINTR)) (with_signals (tl (signals w)) w).

Definition after_read (q : gpd_board_quirk) (offset : Z) (w : world) : world :=
  {| priv := priv w;
     ec := settled offset (EC.ram (ec w)) (ec w);
     io_log := io_log w ++ read_txn q offset (u8 (EC.peek (ec w) offset));
     signals := tl (signals w);
     jiffies := jiffies w;
     stack := stack w |}.

Definition after_write (q : gpd_board_quirk) (offset value : Z) (w : world)
  : world :=
  {| priv := priv w;
     ec := settled offset (<[offset := value]> (EC.ram (ec w))) (ec w);
     io_log := io_log w ++ write_txn q offset value;
     signals := tl (signals w);
     jiffies := jiffies w;
     stack := stack w |}.

(** The pre-read fixup of [gpd_win4_read_rpm_uncached], the statements
    before its call of [gpd_generic_read_rpm_uncached], on its own. *)
Definition win4_fixup : M unit :=
  do q <- the_quirk;
  do PWMCTR <- get (fun w => u8 (PWMCTR0 (stack w)));
  do '(_, PWMCTR) <- gpd_ecram_read q 0x1841 PWMCTR;
  if negb (PWMCTR =? 0x7F)
  then (do _ <- gpd_ecram_write q 0x1841 0x7F; ret tt)
  else ret tt.

(** What [gpd_win4_read_rpm_uncached] does with the result [r] of its call
    of [gpd_generic_read_rpm_uncached], on its own. *)
Definition win4_after_read (q : gpd_board_quirk) (r : Z) : M Z :=
  if r <? 0 then ret r else
  run (if r =? 0 then
         (* re-init EC *)
         do chip_id <- get (fun w => u8 (chip_id0 (stack w)));
         do '(_, chip_id) <- gpd_ecram_read q 0x2000 chip_id;
         if chip_id =? 0x55 then
           do chip_ver <- get (fun w => u8 (chip_ver0 (stack w)));
           do '(rv, chip_ver) <- gpd_ecram_read q 0x1060 chip_ver;
           if negb (rv =? 0)
           then (do _ <- gpd_ecram_write q 0x1060 (u8 (Z.lor chip_ver 0x80));
                 ret tt)
           else ret tt
         else ret tt
       else ret tt);
  ret r.

(** The pre-read fixup of [gpd_wm2_read_rpm_uncached], its loop, on its
    own. *)
Definition wm2_fixup : M unit :=
  do q <- the_quirk;
  for_u16 4 0x1841 0x1843 (fun pwm_ctr_offset =>
    do PWMCTR <- get (fun w => u8 (PWMCTR0 (stack w)));
    do '(_, PWMCTR) <- gpd_ecram_read q pwm_ctr_offset PWMCTR;
    if negb (PWMCTR =? 0xB8)
    then (do _ <- gpd_ecram_write q pwm_ctr_offset 0xB8; ret tt)
    else ret tt).

(** The fan speed held by the two RPM registers, high byte first. *)
Definition rpm_in_ram (q : gpd_board_quirk) (h : EC.hw) : Z :=
  Z.lor (Z.shiftl (u8 (EC.peek h (rpm_read q))) 8)
        (u8 (EC.peek h (rpm_read q + 1))).

(** The raw value [gpd_generic_write_pwm] leaves in the PWM register. *)
Definition written_pwm (val : Z) (w : world) : Z :=
  EC.peek (ec (snd (gpd_generic_write_pwm val w)))
          (pwm_write (quirk (priv w))).

(** Ticks since a time stamp, on the wrapping [unsigned long] counter. *)
Definition elapsed (w : world) (stamp : Z) : Z := ulong (jiffies w - stamp).

(** What an EC access leaves alone.

    [frame w w']: from [w] to [w'] the private data, the clock and the stack
    are the same and the log was only extended; [grows w w']: the log was
    extended by at least one event. *)

Definition frame (w w' : world) : Prop :=
  priv w' = priv w /\ jiffies w' = jiffies w /\ stack w' = stack w /\
  exists t, io_log w' = io_log w ++ t.

Definition grows (w w' : world) : Prop :=
  exists e t, io_log w' = io_log w ++ e :: t.

Definition framed {A} (m : M A) : Prop := forall w, frame w (snd (m w)).
Definition accessing {A} (m : M A) : Prop := forall w, grows w (snd (m w)).
Definition yields {A} (P : A -> Prop) (m : M A) : Prop :=
  forall w, P (fst (m w)).

(** An RPM read returns [-EINTR] or a 16-bit speed. *)
Definition rpm_result (r : Z) : Prop := r = - EINTR \/ 0 <= r < 2 ^ 16.

(** The gate of the write-PWM operation in the words of the
    specification: win-mini writes in Manual mode only, win4 always,
    win-max-2 in every mode but Disabled. *)
Definition spec_pwm_write_gate (b : gpd_board) (mode : FAN_PWM_ENABLE) : bool :=
  match b with
  | win_mini => mode =? MANUAL
  | win4_6800u => true
  | win_max_2 => negb (mode =? DISABLE)
  end.

(** The fields of the private data hold values of their C types and the
    stored mode is one of the three modes. *)
Definition priv_inv (p : gpd_driver_priv_t) : Prop :=
  (pwm_enable p = DISABLE \/ pwm_enable p = MANUAL \/ pwm_enable p = AUTOMATIC)
  /\ is_u8 (pwm_value p) /\ is_u16 (fan_speed_cached p)
  /\ is_u8 (read_pwm_cached p).

(** What an operation that only writes the EC returns. *)
Definition ok_or_eintr (r : Z) : Prop := r = - EINTR \/ r = 0.

(** A failed step is the last thing a mode-transition handler does. *)
Definition stops_at_failure (w : world) (r : Z * world) : Prop :=
  fst r <> 0 ->
  fst r = - EINTR /\
  exists t, io_log (snd r) = io_log w ++ t ++ [Lock (- EINTR)].

(** ** Board selection at module load

    The part of [gpd_fan_init] before the platform device is created.  The
    result of [dmi_first_match(dmi_table)] is an input: [None] is the null
    pointer it returns when no entry matches, [Some d] an entry whose
    [driver_data] is [d] ([None] for a null [driver_data]). *)

(** [for (p = gpd_module_quirks; *p; p++) if (strcmp(...) == 0) ...] *)
Fixpoint match_module_quirk (gpd_fan_board : string)
    (p : list gpd_board_quirk) : option gpd_board_quirk :=
  match p with
  | [] => None
  | q :: p' =>
      if String.eqb gpd_fan_board (board_name q) then Some q
      else match_module_quirk gpd_fan_board p'
  end.

Inductive init_outcome : Set :=
| Init_null_deref                      (* [->driver_data] of a null pointer *)
| Init_error (e : Z)
| Init_priv (p : gpd_driver_priv_t).   (* [gpd_driver_priv] is filled in *)

Definition gpd_fan_init (HZ : Z) (gpd_fan_board : string)
    (dmi_first_match : option (option gpd_board_quirk)) (jiffies : Z)
  : init_outcome :=
  let fill q := Init_priv (gpd_fan_init_priv HZ q jiffies) in
  match match_module_quirk gpd_fan_board gpd_module_quirks with
  | Some q => fill q
  | None =>
      match dmi_first_match with
      | None => Init_null_deref
      | Some None => Init_error (- ENODEV)
      | Some (Some q) => fill q
      end
  end.

(** ** Lock discipline on the log

    [lock_run held t] replays the events [t] from a state where the lock is
    held or not: a wait is only allowed while the lock is free and takes it
    when it returns 0, ports are only touched and the lock only released
    while it is held.  The result is the final state, or [None] when an
    event breaks the discipline. *)
Fixpoint lock_run (held : bool) (t : list io_event) : option bool :=
  match t with
  | [] => Some held
  | Lock r :: t' => if held then None else lock_run (r =? 0) t'
  | Unlock :: t' => if held then lock_run false t' else None
  | Outb _ _ :: t' => if held then lock_run true t' else None
  | Inb _ _ :: t' => if held then lock_run true t' else None
  end.

(** Every port access of [t] is under the lock and the lock is free at
    the end. *)
Definition serialized (t : list io_event) : Prop :=
  lock_run false t = Some false.

Definition disciplined {A} (m : M A) : Prop :=
  forall w, exists t, io_log (snd (m w)) = io_log w ++ t /\ serialized t.

(** * Properties *)

(** ** Integer conversions *)

Lemma u8_small x : is_u8 x -> u8 x = x.
Proof. unfold is_u8, u8. intros H. apply Z.mod_small. lia. Qed.

Lemma u16_small x : is_u16 x -> u16 x = x.
Proof. unfold is_u16, u16. intros H. apply Z.mod_small. lia. Qed.

Lemma u8_range x : is_u8 (u8 x).
Proof. unfold is_u8, u8. apply Z.mod_pos_bound. lia. Qed.

Lemma u16_range x : is_u16 (u16 x).
Proof. unfold is_u16, u16. apply Z.mod_pos_bound. lia. Qed.

Lemma u8_idem x : u8 (u8 x) = u8 x.
Proof. apply u8_small, u8_range. Qed.

Lemma s16_small x : - 2 ^ 15 <= x < 2 ^ 15 -> s16 x = x.
Proof. unfold s16. intros H. rewrite Z.mod_small; lia. Qed.

Lemma s32_small x : - 2 ^ 31 <= x < 2 ^ 31 -> s32 x = x.
Proof. unfold s32. intros H. rewrite Z.mod_small; lia. Qed.

Lemma hi_byte off : is_u16 off -> u8 (Z.land (Z.shiftr off 8) 0xFF) = Z.shiftr off 8.
Proof.
  unfold is_u16. intros H.
  assert (Hs : 0 <= Z.shiftr off 8 < 2 ^ 8).
  { rewrite Z.shiftr_div_pow2 by lia. split.
    - apply Z.div_pos; lia.
    - apply Z.div_lt_upper_bound; lia. }
  change 0xFF with (Z.ones 8). rewrite Z.land_ones by lia.
  rewrite (Z.mod_small _ _ Hs). now apply u8_small.
Qed.

Lemma lo_byte off : u8 (Z.land off 0xFF) = Z.land off 0xFF.
Proof.
  apply u8_small. unfold is_u8.
  change 0xFF with (Z.ones 8). rewrite Z.land_ones by lia.
  apply Z.mod_pos_bound. lia.
Qed.

Lemma latch_join off :
  is_u16 off -> Z.lor (Z.shiftl (Z.shiftr off 8) 8) (Z.land off 0xFF) = off.
Proof.
  intros H. apply Z.bits_inj'. intros n Hn.
  rewrite Z.lor_spec, Z.land_spec, Z.shiftl_spec by lia.
  change 0xFF with (Z.ones 8).
  destruct (Z.ltb_spec n 8) as [Hlt | Hge].
  - rewrite (Z.testbit_neg_r _ (n - 8)) by lia.
    rewrite Z.ones_spec_low by lia. now rewrite andb_true_r.
  - rewrite Z.shiftr_spec by lia. rewrite Z.ones_spec_high by lia.
    rewrite andb_false_r, orb_false_r. f_equal. lia.
Qed.

(** ** The port transport *)

Lemma gpd_ecram_read_intr q off v w :
  interrupted w = true ->
  gpd_ecram_read q off v w = ((- EINTR, v), after_intr w).
Proof.
  intros H. unfold gpd_ecram_read, bind, mutex_lock_interruptible.
  rewrite H. reflexivity.
Qed.

Lemma gpd_ecram_write_intr q off v w :
  interrupted w = true ->
  gpd_ecram_write q off v w = (- EINTR, after_intr w).
Proof.
  intros H. unfold gpd_ecram_write, bind, mutex_lock_interruptible.
  rewrite H. reflexivity.
Qed.

Lemma port_out_addr v a d s i h l c :
  EC.port_out v a (EC.Build_hw a d s i h l c) = EC.Build_hw a d v i h l c.
Proof. unfold EC.port_out. cbn. now rewrite Z.eqb_refl. Qed.

Lemma port_out_index v a d i h l c :
  d <> a ->
  EC.port_out v d (EC.Build_hw a d 0x2E i h l c) = EC.Build_hw a d 0x2E v h l c.
Proof.
  intros Hne. unfold EC.port_out. cbn.
  now rewrite (proj2 (Z.eqb_neq _ _) Hne), Z.eqb_refl.
Qed.

Lemma port_out_hi v a d h l c :
  d <> a ->
  EC.port_out v d (EC.Build_hw a d 0x2F 0x11 h l c)
  = EC.Build_hw a d 0x2F 0x11 v l c.
Proof.
  intros Hne. unfold EC.port_out. cbn.
  now rewrite (proj2 (Z.eqb_neq _ _) Hne), Z.eqb_refl.
Qed.

Lemma port_out_lo v a d h l c :
  d <> a ->
  EC.port_out v d (EC.Build_hw a d 0x2F 0x10 h l c)
  = EC.Build_hw a d 0x2F 0x10 h v c.
Proof.
  intros Hne. unfold EC.port_out. cbn.
  now rewrite (proj2 (Z.eqb_neq _ _) Hne), Z.eqb_refl.
Qed.

Lemma port_out_byte v a d h l c :
  d <> a ->
  EC.port_out v d (EC.Build_hw a d 0x2F 0x12 h l c)
  = EC.Build_hw a d 0x2F 0x12 h l (<[Z.lor (Z.shiftl h 8) l := v]> c).
Proof.
  intros Hne. unfold EC.port_out. cbn.
  now rewrite (proj2 (Z.eqb_neq _ _) Hne), Z.eqb_refl.
Qed.

Lemma port_in_byte a d h l c :
  EC.port_in d (EC.Build_hw a d 0x2F 0x12 h l c)
  = u8 (default 0 (c !! Z.lor (Z.shiftl h 8) l)).
Proof. unfold EC.port_in. cbn. now rewrite Z.eqb_refl. Qed.

(** Runs the monadic layer of one access on a world given field by field,
    then the window one port access at a time, innermost first. *)
Ltac run_monad :=
  cbv [bind ret outb inb mutex_lock_interruptible mutex_unlock log with_ec
       with_signals ec io_log priv signals jiffies stack negb Z.eqb];
  change (u8 46) with 46; change (u8 47) with 47; change (u8 17) with 17;
  change (u8 16) with 16; change (u8 18) with 18.

Ltac run_window Hne :=
  rewrite ?port_out_addr;
  repeat first
    [ rewrite (port_out_index _ _ _ _ _ _ _ Hne), ?port_out_addr
    | rewrite (port_out_hi _ _ _ _ _ _ Hne), ?port_out_addr
    | rewrite (port_out_lo _ _ _ _ _ _ Hne), ?port_out_addr
    | rewrite (port_out_byte _ _ _ _ _ _ Hne), ?port_out_addr
    | rewrite port_in_byte ].

Lemma gpd_ecram_read_ok q off v w :
  wired q w -> is_u16 off -> interrupted w = false ->
  gpd_ecram_read q off v w =
    ((0, u8 (EC.peek (ec w) off)), after_read q off w).
Proof.
  intros (Ha & Hd & Hne) Hoff Hi.
  assert (Hne' : data_port q <> addr_port q) by congruence.
  unfold gpd_ecram_read, after_read, read_txn, select_offset, settled, EC.peek.
  unfold bind at 1. unfold mutex_lock_interruptible at 1.
  rewrite Hi.
  destruct w as [p [wa wd s i hi lo cells] l sg j st].
  cbn [ec EC.wired_addr EC.wired_data] in Ha, Hd. subst wa wd.
  run_monad.
  rewrite ?u8_idem, (hi_byte _ Hoff), lo_byte.
  run_window Hne'.
  rewrite (latch_join _ Hoff).
  cbn [EC.ram EC.wired_addr EC.wired_data].
  repeat rewrite <- app_assoc. reflexivity.
Qed.

Lemma gpd_ecram_write_ok q off v w :
  wired q w -> is_u16 off -> interrupted w = false ->
  gpd_ecram_write q off v w = (0, after_write q off (u8 v) w).
Proof.
  intros (Ha & Hd & Hne) Hoff Hi.
  assert (Hne' : data_port q <> addr_port q) by congruence.
  unfold gpd_ecram_write, after_write, write_txn, select_offset, settled.
  unfold bind at 1. unfold mutex_lock_interruptible at 1.
  rewrite Hi.
  destruct w as [p [wa wd s i hi lo cells] l sg j st].
  cbn [ec EC.wired_addr EC.wired_data] in Ha, Hd. subst wa wd.
  run_monad.
  rewrite ?u8_idem, (hi_byte _ Hoff), lo_byte.
  run_window Hne'.
  rewrite (latch_join _ Hoff).
  cbn [EC.ram EC.wired_addr EC.wired_data].
  repeat rewrite <- app_assoc. reflexivity.
Qed.

(** ** What an EC access leaves alone *)

Lemma frame_refl w : frame w w.
Proof. repeat split. exists []. now rewrite app_nil_r. Qed.

Lemma frame_trans w1 w2 w3 : frame w1 w2 -> frame w2 w3 -> frame w1 w3.
Proof.
  intros (Hp & Hj & Hs & t & Ht) (Hp' & Hj' & Hs' & t' & Ht').
  repeat split; try congruence.
  exists (t ++ t'). rewrite Ht', Ht. now rewrite app_assoc.
Qed.

Lemma grows_frame w1 w2 w3 : grows w1 w2 -> frame w2 w3 -> grows w1 w3.
Proof.
  intros (e & t & Ht) (_ & _ & _ & t' & Ht').
  exists e, (t ++ t'). rewrite Ht', Ht. now rewrite <- app_assoc.
Qed.

Lemma frame_grows w1 w2 w3 : frame w1 w2 -> grows w2 w3 -> grows w1 w3.
Proof.
  intros (_ & _ & _ & t & Ht) (e & t' & Ht').
  destruct t as [| e0 t].
  - exists e, t'. rewrite Ht', Ht. now rewrite app_nil_r.
  - exists e0, (t ++ e :: t'). rewrite Ht', Ht. now rewrite <- app_assoc.
Qed.

Lemma grows_neq w w' : grows w w' -> io_log w' <> io_log w.
Proof.
  intros (e & t & Ht) Heq. rewrite Heq in Ht.
  apply (f_equal (@length _)) in Ht. rewrite length_app in Ht. cbn in Ht. lia.
Qed.

Lemma framed_ret {A} (a : A) : framed (ret a).
Proof. intros w. apply frame_refl. Qed.

Lemma framed_get {A} (f : world -> A) : framed (get f).
Proof. intros w. apply frame_refl. Qed.

Lemma framed_bind {A B} (m : M A) (k : A -> M B) :
  framed m -> (forall a, framed (k a)) -> framed (bind m k).
Proof.
  intros Hm Hk w. unfold bind. specialize (Hm w).
  destruct (m w) as [a w1]. eapply frame_trans; [exact Hm | apply Hk].
Qed.

Lemma accessing_bind_l {A B} (m : M A) (k : A -> M B) :
  accessing m -> (forall a, framed (k a)) -> accessing (bind m k).
Proof.
  intros Hm Hk w. unfold bind. specialize (Hm w).
  destruct (m w) as [a w1]. eapply grows_frame; [exact Hm | apply Hk].
Qed.

Lemma accessing_bind_r {A B} (m : M A) (k : A -> M B) :
  framed m -> (forall a, accessing (k a)) -> accessing (bind m k).
Proof.
  intros Hm Hk w. unfold bind. specialize (Hm w).
  destruct (m w) as [a w1]. eapply frame_grows; [exact Hm | apply Hk].
Qed.

Lemma yields_bind {A B} (Q : A -> Prop) (P : B -> Prop) (m : M A)
    (k : A -> M B) :
  yields Q m -> (forall a, Q a -> yields P (k a)) -> yields P (bind m k).
Proof.
  intros Hm Hk w. unfold bind. specialize (Hm w).
  destruct (m w) as [a w1]. now apply Hk.
Qed.

Lemma framed_log_step (e : io_event) w : frame w (log e w).
Proof. repeat split. now exists [e]. Qed.

Lemma framed_outb v p : framed (outb v p).
Proof. intros w. repeat split. now exists [Outb (u8 v) p]. Qed.

Lemma framed_inb p : framed (inb p).
Proof. intros w. repeat split. cbn. now eexists [_]. Qed.

Lemma framed_lock : framed mutex_lock_interruptible.
Proof. intros w. repeat split. cbn. now eexists [_]. Qed.

Lemma accessing_lock : accessing mutex_lock_interruptible.
Proof. intros w. cbn. now eexists _, []. Qed.

Lemma framed_unlock : framed mutex_unlock.
Proof. intros w. repeat split. now exists [Unlock]. Qed.

(** Closes [framed] goals along the structure of the code. *)
Ltac framed_step :=
  lazymatch goal with
  | |- framed (bind _ _) => apply framed_bind; [ | intros ]
  | |- framed (ret _) => apply framed_ret
  | |- framed (get _) => apply framed_get
  | |- framed (outb _ _) => apply framed_outb
  | |- framed (inb _) => apply framed_inb
  | |- framed mutex_lock_interruptible => apply framed_lock
  | |- framed mutex_unlock => apply framed_unlock
  | |- framed (if ?c then _ else _) => destruct c
  | |- framed (let '(_, _) := ?x in _) => destruct x
  | |- framed (match ?x with _ => _ end) => destruct x
  end.

Ltac framed_tac := repeat first [ assumption | framed_step ].

Lemma framed_ecram_read q off v : framed (gpd_ecram_read q off v).
Proof. unfold gpd_ecram_read. framed_tac. Qed.

Lemma framed_ecram_write q off v : framed (gpd_ecram_write q off v).
Proof. unfold gpd_ecram_write. framed_tac. Qed.

Lemma accessing_ecram_read q off v : accessing (gpd_ecram_read q off v).
Proof.
  unfold gpd_ecram_read. apply accessing_bind_l; [apply accessing_lock |].
  intros r. framed_tac.
Qed.

Lemma accessing_ecram_write q off v : accessing (gpd_ecram_write q off v).
Proof.
  unfold gpd_ecram_write. apply accessing_bind_l; [apply accessing_lock |].
  intros r. framed_tac.
Qed.

Create HintDb drv_frame.
#[local] Hint Resolve framed_ecram_read framed_ecram_write : drv_frame.

Ltac drv_framed :=
  repeat first [ assumption | framed_step | solve [auto 1 with drv_frame nocore] ].

(** Results of the two transport functions. *)
Lemma gpd_ecram_read_result q off v w :
  let '(r, v') := fst (gpd_ecram_read q off v w) in
  (r = - EINTR /\ v' = v) \/ (r = 0 /\ is_u8 v').
Proof.
  unfold gpd_ecram_read, bind at 1, mutex_lock_interruptible at 1.
  destruct (interrupted w); cbn [negb Z.eqb EINTR Z.opp Pos.eqb].
  - left. now split.
  - right. cbv [bind ret outb inb mutex_unlock log with_ec with_signals fst snd
         ec priv io_log signals jiffies stack].
    split; [reflexivity |].
    match goal with |- is_u8 (EC.port_in ?p ?h) =>
      generalize h; intros h'; unfold EC.port_in;
      destruct (_ && _); [apply u8_range | unfold is_u8; lia] end.
Qed.

Lemma gpd_ecram_write_fst q off v w :
  fst (gpd_ecram_write q off v w) = if interrupted w then - EINTR else 0.
Proof.
  unfold gpd_ecram_write. unfold bind at 1.
  unfold mutex_lock_interruptible at 1.
  destruct (interrupted w); cbn [negb Z.eqb EINTR Z.opp Pos.eqb].
  - reflexivity.
  - cbv [bind ret outb mutex_unlock log with_ec with_signals fst snd
         ec priv io_log signals jiffies stack].
    reflexivity.
Qed.

Lemma gpd_ecram_write_result q off v :
  yields (fun r => r = - EINTR \/ r = 0) (gpd_ecram_write q off v).
Proof.
  intros w. rewrite gpd_ecram_write_fst. destruct (interrupted w); auto.
Qed.

Lemma rpm_join h l :
  is_u8 h -> is_u8 l -> Z.lor (Z.shiftl h 8) l = h * 256 + l.
Proof.
  unfold is_u8. intros Hh Hl.
  rewrite <- Z.add_nocarry_lor.
  - rewrite Z.shiftl_mul_pow2 by lia. reflexivity.
  - apply Z.bits_inj'. intros n Hn.
    rewrite Z.land_spec, Z.bits_0.
    destruct (Z.ltb_spec n 8) as [Hlt | Hge].
    + rewrite Z.shiftl_spec_low by lia. reflexivity.
    + destruct (Z.eq_dec l 0) as [-> | Hl0].
      * rewrite Z.bits_0. apply andb_false_r.
      * rewrite (Z.bits_above_log2 l n); [apply andb_false_r | lia |].
        assert (Z.log2 l < 8) by (apply Z.log2_lt_pow2; lia). lia.
Qed.

Lemma generic_read_rpm_result : yields rpm_result gpd_generic_read_rpm_uncached.
Proof.
  intros w. unfold gpd_generic_read_rpm_uncached, the_quirk, get, bind.
  set (q := quirk (priv w)).
  pose proof (gpd_ecram_read_result q (rpm_read q) 0 w) as H1.
  destruct (gpd_ecram_read q (rpm_read q) 0 w) as [[r1 high] w1].
  cbn [fst] in H1. destruct H1 as [[-> _] | [-> Hh]]; [now left |].
  cbn [negb Z.eqb].
  pose proof (gpd_ecram_read_result q (u16 (rpm_read q + 1)) 0 w1) as H2.
  destruct (gpd_ecram_read q (u16 (rpm_read q + 1)) 0 w1) as [[r2 low] w2].
  cbn [fst] in H2. destruct H2 as [[-> _] | [-> Hl]]; [now left |].
  cbn [negb Z.eqb ret fst]. right.
  assert (Hh16 : is_u16 high) by (unfold is_u8, is_u16 in *; lia).
  rewrite (u16_small _ Hh16), (rpm_join _ _ Hh Hl).
  unfold is_u8 in *. rewrite s32_small; lia.
Qed.

Lemma framed_generic_read_rpm : framed gpd_generic_read_rpm_uncached.
Proof. unfold gpd_generic_read_rpm_uncached, the_quirk. drv_framed. Qed.

Lemma accessing_generic_read_rpm : accessing gpd_generic_read_rpm_uncached.
Proof.
  unfold gpd_generic_read_rpm_uncached, the_quirk.
  apply accessing_bind_r; [apply framed_get | intros q].
  apply accessing_bind_l; [apply accessing_ecram_read | intros rv].
  drv_framed.
Qed.

#[local] Hint Resolve framed_generic_read_rpm : drv_frame.

Lemma framed_win4_read_rpm : framed gpd_win4_read_rpm_uncached.
Proof. unfold gpd_win4_read_rpm_uncached, the_quirk. drv_framed. Qed.

Lemma accessing_win4_read_rpm : accessing gpd_win4_read_rpm_uncached.
Proof.
  unfold gpd_win4_read_rpm_uncached, the_quirk.
  apply accessing_bind_r; [apply framed_get | intros q].
  apply accessing_bind_r; [apply framed_get | intros junk].
  apply accessing_bind_l; [apply accessing_ecram_read | intros rv].
  drv_framed.
Qed.

Lemma win4_read_rpm_result : yields rpm_result gpd_win4_read_rpm_uncached.
Proof.
  unfold gpd_win4_read_rpm_uncached.
  eapply (yields_bind (fun _ => True)); [easy | intros q _].
  eapply (yields_bind (fun _ => True)); [easy | intros junk _].
  eapply (yields_bind (fun _ => True)); [easy | intros [rv PWMCTR] _].
  eapply (yields_bind (fun _ => True)); [easy | intros _ _].
  eapply yields_bind; [apply generic_read_rpm_result | intros r Hr].
  destruct (r <? 0); [exact (fun _ => Hr) |].
  eapply (yields_bind (fun _ => True)); [easy | intros _ _].
  exact (fun _ => Hr).
Qed.

Lemma framed_for_u16 fuel (body : Z -> M unit) :
  (forall i, framed (body i)) -> forall i hi, framed (for_u16 fuel i hi body).
Proof.
  intros Hb. induction fuel as [| fuel IH]; intros i hi; cbn [for_u16].
  - apply framed_ret.
  - destruct (i <=? hi); [| apply framed_ret].
    apply framed_bind; [apply Hb | intros _; apply IH].
Qed.

Lemma framed_wm2_read_rpm : framed gpd_wm2_read_rpm_uncached.
Proof.
  unfold gpd_wm2_read_rpm_uncached, the_quirk.
  apply framed_bind; [apply framed_get | intros q].
  apply framed_bind; [| intros _; apply framed_generic_read_rpm].
  apply framed_for_u16. intros i. drv_framed.
Qed.

Lemma accessing_wm2_read_rpm : accessing gpd_wm2_read_rpm_uncached.
Proof.
  unfold gpd_wm2_read_rpm_uncached, the_quirk.
  apply accessing_bind_r; [apply framed_get | intros q].
  apply accessing_bind_r; [| intros _; apply accessing_generic_read_rpm].
  apply framed_for_u16. intros i. drv_framed.
Qed.

Lemma wm2_read_rpm_result : yields rpm_result gpd_wm2_read_rpm_uncached.
Proof.
  unfold gpd_wm2_read_rpm_uncached.
  eapply (yields_bind (fun _ => True)); [easy | intros q _].
  eapply (yields_bind (fun _ => True)); [easy | intros _ _].
  apply generic_read_rpm_result.
Qed.

Lemma framed_wm2_read_pwm : framed gpd_wm2_read_pwm_uncached.
Proof. unfold gpd_wm2_read_pwm_uncached, the_quirk. drv_framed. Qed.


Lemma framed_generic_write_pwm val : framed (gpd_generic_write_pwm val).
Proof. unfold gpd_generic_write_pwm, the_quirk. drv_framed. Qed.

Lemma accessing_generic_write_pwm val : accessing (gpd_generic_write_pwm val).
Proof.
  unfold gpd_generic_write_pwm, the_quirk.
  apply accessing_bind_r; [apply framed_get | intros q].
  apply accessing_ecram_write.
Qed.

#[local] Hint Resolve framed_generic_write_pwm : drv_frame.

Lemma framed_write_pwm val : framed (gpd_write_pwm val).
Proof.
  unfold gpd_write_pwm, gpd_win_mini_write_pwm, gpd_wm2_write_pwm, the_quirk.
  drv_framed.
Qed.

Lemma framed_set_pwm_enable enable : framed (gpd_set_pwm_enable enable).
Proof.
  unfold gpd_set_pwm_enable, gpd_win_mini_set_pwm_enable,
    gpd_wm2_set_pwm_enable, the_quirk.
  drv_framed.
Qed.

(** ** The refresh test *)

Lemma time_after_elapsed HZ now last :
  0 <= HZ < 2 ^ 63 -> ulong (now - last) < 2 ^ 63 ->
  time_after now (ulong (last + HZ)) = (HZ <? ulong (now - last)).
Proof.
  unfold time_after, long, ulong. intros HHZ He.
  change (2 ^ 63) with 9223372036854775808 in *.
  change (2 ^ 64) with 18446744073709551616 in *.
  destruct (Z.ltb_spec HZ ((now - last) mod 18446744073709551616));
    [apply Z.ltb_lt | apply Z.ltb_ge];
    Z.div_mod_to_equations; lia.
Qed.

(** ** Cached reads *)

Lemma uncached_rpm_dispatch (b : gpd_board) :
  let m := match b with
           | win_mini => gpd_generic_read_rpm_uncached
           | win4_6800u => gpd_win4_read_rpm_uncached
           | win_max_2 => gpd_wm2_read_rpm_uncached
           end in
  framed m /\ accessing m /\ yields rpm_result m.
Proof.
  destruct b; cbv zeta.
  - exact (conj framed_generic_read_rpm
             (conj accessing_generic_read_rpm generic_read_rpm_result)).
  - exact (conj framed_win4_read_rpm
             (conj accessing_win4_read_rpm win4_read_rpm_result)).
  - exact (conj framed_wm2_read_rpm
             (conj accessing_wm2_read_rpm wm2_read_rpm_result)).
Qed.

Lemma gpd_read_rpm_fresh HZ w :
  time_after (jiffies w) (ulong (fan_speed_last_update (priv w) + HZ)) = false ->
  gpd_read_rpm HZ w = (fan_speed_cached (priv w), w).
Proof.
  intros H. unfold gpd_read_rpm, the_quirk, bind, get. rewrite H. reflexivity.
Qed.

Lemma gpd_read_rpm_stale HZ w :
  time_after (jiffies w) (ulong (fan_speed_last_update (priv w) + HZ)) = true ->
  let v := fst (gpd_read_rpm HZ w) in
  let w' := snd (gpd_read_rpm HZ w) in
  grows w w' /\
  ((v < 0 /\ priv w' = priv w) \/
   (0 <= v /\ fan_speed_cached (priv w') = v /\
    fan_speed_last_update (priv w') = jiffies w)).
Proof.
  intros H. unfold gpd_read_rpm, the_quirk, bind, get.
  rewrite H. cbv beta iota zeta.
  destruct (uncached_rpm_dispatch (board (quirk (priv w)))) as (Hf & Ha & Hr).
  cbv zeta in Hf, Ha, Hr.
  specialize (Hf w). specialize (Ha w). specialize (Hr w).
  destruct (match board (quirk (priv w)) with
            | win_mini => gpd_generic_read_rpm_uncached
            | win4_6800u => gpd_win4_read_rpm_uncached
            | win_max_2 => gpd_wm2_read_rpm_uncached
            end w) as [r w1].
  cbn [fst snd] in *. destruct Hf as (Hp & _). unfold rpm_result, EINTR in Hr.
  destruct (Z.ltb_spec r 0) as [Hneg | Hpos]; cbn.
  - split; [exact Ha |]. left. now split.
  - split; [exact Ha |]. right.
    rewrite u16_small by (unfold is_u16; lia). repeat split. lia.
Qed.



(** C5: a successful read-PWM returns a duty in [0,255] on every board and
    for every content of the EC, both from [gpd_read_pwm] and through the
    hwmon read callback: win-mini and win4 report the stored [u8] duty, and
    win-max-2 reports its [u8] cache, into which the rescaled register is
    stored before it is returned. *)
Theorem read_pwm_duty_range HZ w (val : Z) :
  is_u8 (pwm_value (priv w)) ->
  is_u8 (read_pwm_cached (priv w)) ->
  (0 <= fst (gpd_read_pwm HZ w) -> 0 <= fst (gpd_read_pwm HZ w) <= 255) /\
  (let r := fst (gpd_fan_hwmon_read HZ hwmon_pwm hwmon_pwm_input val w) in
   fst r = 0 -> 0 <= snd r <= 255).
Proof.
  intros Hv Hc.
  assert (H : fst (gpd_read_pwm HZ w) < 0 \/ 0 <= fst (gpd_read_pwm HZ w) <= 255).
  { unfold gpd_read_pwm, the_quirk, bind, get, ret, modify_priv.
    cbv beta iota zeta.
    unfold is_u8 in *.
    destruct (board (quirk (priv w))); cbn [fst]; try lia.
    destruct (time_after _ _); cbv beta iota zeta; cbn [fst]; [| lia].
    destruct (gpd_wm2_read_pwm_uncached w) as [r w1].
    destruct (Z.ltb_spec r 0); cbn; [lia |].
    pose proof (u8_range r) as Hu. unfold is_u8 in Hu. lia. }
  split; [lia |].
  unfold gpd_fan_hwmon_read, bind. cbn [Z.eqb hwmon_pwm_input hwmon_pwm_enable].
  destruct (gpd_read_pwm HZ w) as [r w1]. cbn [fst] in H.
  destruct (Z.ltb_spec r 0); cbn; lia.
Qed.

(** C7: [gpd_write_pwm] is gated by the mode per board.  Where the gate is
    open the call is the EC write of the rescaled duty to the PWM register
    and the hardware is accessed; where it is closed the call returns 0 and
    leaves the world as it was. *)
Theorem write_pwm_mode_gated (val : Z) w :
  let q := quirk (priv w) in
  let raw := u8 (Z.quot (u8 val * (pwm_max q - 1)) 255 + 1) in
  let r := gpd_write_pwm val w in
  if spec_pwm_write_gate (board q) (pwm_enable (priv w))
  then r = gpd_ecram_write q (pwm_write q) raw w /\ io_log (snd r) <> io_log w
  else r = (0, w).
Proof.
  cbv zeta. unfold spec_pwm_write_gate.
  assert (Hw : gpd_generic_write_pwm val w =
               gpd_ecram_write (quirk (priv w)) (pwm_write (quirk (priv w)))
                 (u8 (Z.quot (u8 val * (pwm_max (quirk (priv w)) - 1)) 255 + 1))
                 w)
    by reflexivity.
  assert (Hg : io_log (snd (gpd_generic_write_pwm val w)) <> io_log w)
    by apply grows_neq, accessing_generic_write_pwm.
  unfold gpd_write_pwm, gpd_win_mini_write_pwm, gpd_wm2_write_pwm, the_quirk.
  unfold bind, get. cbv beta iota zeta.
  destruct (board (quirk (priv w))).
  - destruct (pwm_enable (priv w) =? MANUAL); [| reflexivity].
    split; [exact Hw | exact Hg].
  - split; [exact Hw | exact Hg].
  - destruct (pwm_enable (priv w) =? DISABLE); cbn [negb]; [reflexivity |].
    split; [exact Hw | exact Hg].
Qed.

Lemma in_range_mode v :
  is_long v -> in_range v 0 3 = (0 <=? v) && (v <=? 2).
Proof.
  unfold is_long, in_range, ulong. intros Hv.
  change (2 ^ 63) with 9223372036854775808 in *.
  change (2 ^ 64) with 18446744073709551616 in *.
  change (0 mod 18446744073709551616) with 0.
  change (3 mod 18446744073709551616) with 3.
  rewrite Z.sub_0_r, Z.mod_mod by lia.
  destruct (Z.leb_spec 0 v), (Z.leb_spec v 2); cbn [andb];
    [apply Z.ltb_lt | apply Z.ltb_ge | apply Z.ltb_ge | apply Z.ltb_ge];
    Z.div_mod_to_equations; lia.
Qed.

Lemma hwmon_write_enable_valid v w :
  in_range v 0 3 = true ->
  gpd_fan_hwmon_write hwmon_pwm hwmon_pwm_enable v w
  = gpd_set_pwm_enable v (with_priv (set_pwm_enable v) w).
Proof.
  intros H. unfold gpd_fan_hwmon_write. cbn [Z.eqb hwmon_pwm_enable Pos.eqb].
  rewrite H. reflexivity.
Qed.

(** C8: writing pwm1_enable with a value outside {0,1,2} fails with
    [-EINVAL] and leaves the whole world, stored mode and hardware, as it
    was; a value in {0,1,2} is not rejected and is the stored mode after
    the call. *)
Theorem set_mode_validates v w :
  is_long v ->
  let r := gpd_fan_hwmon_write hwmon_pwm hwmon_pwm_enable v w in
  (v <> 0 /\ v <> 1 /\ v <> 2 -> r = (- EINVAL, w)) /\
  (v = 0 \/ v = 1 \/ v = 2 ->
   fst r <> - EINVAL /\ pwm_enable (priv (snd r)) = v).
Proof.
  intros Hv. cbv zeta. pose proof (in_range_mode v Hv) as Hr. split.
  - intros (H0 & H1 & H2). unfold gpd_fan_hwmon_write.
    cbn [Z.eqb hwmon_pwm_enable Pos.eqb]. rewrite Hr.
    destruct (Z.leb_spec 0 v), (Z.leb_spec v 2); cbn; try reflexivity. lia.
  - intros Hin. rewrite hwmon_write_enable_valid
      by (rewrite Hr; destruct Hin as [-> | [-> | ->]]; reflexivity).
    split.
    + assert (Hres : yields (fun r => r = - EINTR \/ r = 0)
                       (gpd_set_pwm_enable v)).
      { unfold gpd_set_pwm_enable, gpd_win_mini_set_pwm_enable,
          gpd_wm2_set_pwm_enable, gpd_generic_write_pwm, the_quirk.
        intros w0. unfold bind, get. cbv beta iota zeta.
        repeat match goal with
        | |- context [gpd_ecram_write ?q ?o ?x ?w1] =>
            let H := fresh in
            pose proof (gpd_ecram_write_result q o x w1) as H;
            cbv beta in H;
            destruct (gpd_ecram_write q o x w1) as [? ?];
            cbn [fst] in H; destruct H as [-> | ->];
            cbn [negb Z.eqb EINTR Z.opp Pos.eqb ret fst]
        | |- context [match board ?q with _ => _ end] => destruct (board q)
        | |- context [if ?c then _ else _] => destruct c
        end; auto. }
      specialize (Hres (with_priv (set_pwm_enable v) w)). cbv beta in Hres.
      unfold EINTR, EINVAL in *. lia.
    + destruct (framed_set_pwm_enable v (with_priv (set_pwm_enable v) w))
        as (Hp & _).
      rewrite Hp. reflexivity.
Qed.

(** C9: when pwm1_enable is written with a valid mode and the board's
    mode-transition handler fails, the stored mode is the requested one all
    the same, and what the caller gets is the handler's error. *)
Theorem set_mode_failure_keeps_new_mode v w :
  v = 0 \/ v = 1 \/ v = 2 ->
  let r := gpd_fan_hwmon_write hwmon_pwm hwmon_pwm_enable v w in
  let handler := gpd_set_pwm_enable v (with_priv (set_pwm_enable v) w) in
  fst handler <> 0 ->
  pwm_enable (priv (snd r)) = v /\ fst r = fst handler.
Proof.
  intros Hin. cbv zeta. intros _.
  rewrite hwmon_write_enable_valid
    by (destruct Hin as [-> | [-> | ->]]; reflexivity).
  split; [| reflexivity].
  destruct (framed_set_pwm_enable v (with_priv (set_pwm_enable v) w))
    as (Hp & _).
  rewrite Hp. reflexivity.
Qed.

Lemma clamp_val_duty v : is_u8 (clamp_val v 0 255).
Proof. unfold is_u8, clamp_val. lia. Qed.

(** C10: on win-mini in Disabled or Automatic mode, writing pwm1 succeeds
    without touching the hardware, and the next read of pwm1 returns the
    clamped value just written, which is the value itself when it lies in
    [0,255]: the duty is stored before the gated board write runs. *)
Theorem win_mini_pwm_readback_without_write HZ v w :
  board (quirk (priv w)) = win_mini ->
  pwm_enable (priv w) = DISABLE \/ pwm_enable (priv w) = AUTOMATIC ->
  let r := gpd_fan_hwmon_write hwmon_pwm hwmon_pwm_input v w in
  fst r = 0 /\
  io_log (snd r) = io_log w /\ ec (snd r) = ec w /\
  signals (snd r) = signals w /\
  gpd_read_pwm HZ (snd r) = (clamp_val v 0 255, snd r) /\
  (0 <= v <= 255 -> fst (gpd_read_pwm HZ (snd r)) = v).
Proof.
  intros Hb Hm. cbv zeta.
  assert (Hw : gpd_fan_hwmon_write hwmon_pwm hwmon_pwm_input v w
               = (0, with_priv (set_pwm_value (clamp_val v 0 255)) w)).
  { unfold gpd_fan_hwmon_write. cbn [Z.eqb hwmon_pwm_enable hwmon_pwm_input].
    rewrite (u8_small _ (clamp_val_duty v)).
    unfold gpd_write_pwm, gpd_win_mini_write_pwm, the_quirk, bind, get,
      modify_priv, ret.
    cbn [fst snd priv with_priv set_pwm_value quirk pwm_enable].
    rewrite Hb. cbn [priv with_priv set_pwm_value pwm_enable].
    destruct Hm as [-> | ->]; reflexivity. }
  rewrite Hw. cbn [fst snd io_log ec signals with_priv].
  assert (Hr : gpd_read_pwm HZ (with_priv (set_pwm_value (clamp_val v 0 255)) w)
               = (clamp_val v 0 255,
                  with_priv (set_pwm_value (clamp_val v 0 255)) w)).
  { unfold gpd_read_pwm, the_quirk, bind, get.
    cbn [fst snd priv with_priv set_pwm_value quirk pwm_value].
    rewrite Hb. reflexivity. }
  repeat split; try exact Hr.
  intros Hv. rewrite Hr. cbn [fst]. unfold clamp_val. lia.
Qed.

(** ** Worlds after an access *)

Lemma quiet_not_interrupted w : quiet w -> interrupted w = false.
Proof.
  unfold quiet, interrupted. intros H.
  destruct (signals w) as [| [] l]; try reflexivity.
  now inversion H.
Qed.

Lemma quiet_tl (l : list bool) :
  Forall (fun b => b = false) l -> Forall (fun b => b = false) (tl l).
Proof. intros H. destruct l; [exact H | now inversion H]. Qed.

Lemma quiet_after_read q off w : quiet w -> quiet (after_read q off w).
Proof. apply quiet_tl. Qed.

Lemma quiet_after_write q off v w : quiet w -> quiet (after_write q off v w).
Proof. apply quiet_tl. Qed.

Lemma quiet_after_intr w l :
  signals w = true :: l -> Forall (fun b => b = false) l -> quiet (after_intr w).
Proof. unfold quiet. cbn. intros ->. trivial. Qed.

Lemma interrupted_head w l : signals w = true :: l -> interrupted w = true.
Proof. unfold interrupted. now intros ->. Qed.

Lemma wired_after_read q off w : wired q w -> wired q (after_read q off w).
Proof. exact (fun H => H). Qed.

Lemma wired_after_write q off v w : wired q w -> wired q (after_write q off v w).
Proof. exact (fun H => H). Qed.

Lemma wired_after_intr q w : wired q w -> wired q (after_intr w).
Proof. exact (fun H => H). Qed.

Lemma peek_after_read q off w o :
  EC.peek (ec (after_read q off w)) o = EC.peek (ec w) o.
Proof. reflexivity. Qed.

Lemma peek_after_intr w o : EC.peek (ec (after_intr w)) o = EC.peek (ec w) o.
Proof. reflexivity. Qed.

Lemma peek_after_write_eq q off v w :
  EC.peek (ec (after_write q off v w)) off = v.
Proof. unfold EC.peek. cbn. now rewrite lookup_insert_eq. Qed.

Lemma peek_after_write_ne q off v w o :
  off <> o -> EC.peek (ec (after_write q off v w)) o = EC.peek (ec w) o.
Proof. intros H. unfold EC.peek. cbn. now rewrite lookup_insert_ne. Qed.

Lemma rpm_in_ram_range q h : 0 <= rpm_in_ram q h < 2 ^ 16.
Proof.
  unfold rpm_in_ram.
  pose proof (u8_range (EC.peek h (rpm_read q))) as H1.
  pose proof (u8_range (EC.peek h (rpm_read q + 1))) as H2.
  rewrite (rpm_join _ _ H1 H2). unfold is_u8 in *. lia.
Qed.

(** Side conditions of the access equations. *)
Ltac access_side :=
  first
    [ assumption
    | solve [ unfold is_u16; cbn; lia ]
    | solve [ repeat first [ apply wired_after_read | apply wired_after_write
                           | apply wired_after_intr ]; assumption ]
    | solve [ apply quiet_not_interrupted;
              repeat first [ apply quiet_after_read | apply quiet_after_write ];
              first [ assumption | eapply quiet_after_intr; eassumption ] ]
    | solve [ eapply interrupted_head; eassumption ] ].

Ltac access_step :=
  first
    [ rewrite gpd_ecram_read_ok by access_side
    | rewrite gpd_ecram_write_ok by access_side
    | rewrite gpd_ecram_read_intr by access_side
    | rewrite gpd_ecram_write_intr by access_side ];
  cbv beta iota zeta.

(** The generic RPM read when neither wait is interrupted. *)
Lemma generic_read_rpm_quiet q w :
  quirk (priv w) = q ->
  wired q w -> quiet w -> 0 <= rpm_read q < 2 ^ 16 - 1 ->
  gpd_generic_read_rpm_uncached w
  = (rpm_in_ram q (ec w),
     after_read q (rpm_read q + 1) (after_read q (rpm_read q) w)).
Proof.
  intros <- Hw Hq Hoff.
  unfold gpd_generic_read_rpm_uncached, the_quirk, bind, get.
  cbv beta iota zeta.
  assert (is_u16 (rpm_read (quirk (priv w)))) by (unfold is_u16; lia).
  assert (Hu : u16 (rpm_read (quirk (priv w)) + 1)
               = rpm_read (quirk (priv w)) + 1)
    by (apply u16_small; unfold is_u16; lia).
  assert (is_u16 (rpm_read (quirk (priv w)) + 1)) by (unfold is_u16; lia).
  rewrite Hu.
  access_step. cbn [negb Z.eqb]. access_step. cbn [negb Z.eqb].
  unfold ret. f_equal.
  rewrite peek_after_read.
  pose proof (rpm_in_ram_range (quirk (priv w)) (ec w)) as Hr.
  unfold rpm_in_ram in *.
  rewrite (u16_small (u8 _))
    by (pose proof (u8_range (EC.peek (ec w) (rpm_read (quirk (priv w)))));
        unfold is_u8, is_u16 in *; lia).
  apply s32_small. lia.
Qed.

Ltac quiet_side :=
  repeat first [ apply quiet_after_read | apply quiet_after_write ];
  first [ assumption | eapply quiet_after_intr; eassumption ].

Ltac rpm_step q :=
  rewrite (generic_read_rpm_quiet q)
    by first [ assumption | quiet_side | solve [ cbn; lia ] | access_side ];
  cbv beta iota zeta.

(** ** PWM scaling *)

Lemma raw_pwm_exact m val :
  1 <= m <= 255 -> 0 <= val <= 255 ->
  u8 (Z.quot (u8 val * (m - 1)) 255 + 1) = val * (m - 1) / 255 + 1.
Proof.
  intros Hm Hv.
  rewrite (u8_small val) by (unfold is_u8; lia).
  rewrite Z.quot_div_nonneg by nia.
  apply u8_small. unfold is_u8.
  assert (0 <= val * (m - 1) / 255) by (apply Z.div_pos; nia).
  assert (val * (m - 1) / 255 < 255)
    by (apply Z.div_lt_upper_bound; nia).
  lia.
Qed.

Lemma generic_write_pwm_granted val w :
  let q := quirk (priv w) in
  wired q w -> interrupted w = false -> is_u16 (pwm_write q) ->
  gpd_generic_write_pwm val w
  = (0, after_write q (pwm_write q)
          (u8 (Z.quot (u8 val * (pwm_max q - 1)) 255 + 1)) w).
Proof.
  cbv zeta. intros Hw Hi Hoff.
  unfold gpd_generic_write_pwm, the_quirk, bind, get. cbv beta iota zeta.
  rewrite gpd_ecram_write_ok by assumption. now rewrite u8_idem.
Qed.

Lemma module_quirk_bounds q :
  In q gpd_module_quirks ->
  1 <= pwm_max q <= 255 /\ is_u16 (pwm_write q) /\
  0 <= rpm_read q < 2 ^ 16 - 1 /\ addr_port q <> data_port q.
Proof.
  intros [<- | [<- | [<- | []]]]; cbn; unfold is_u16; repeat split; lia.
Qed.

(** C3, amended: on every board profile and for every duty [val] in
    [0,255], the byte [gpd_generic_write_pwm] writes to the PWM register is
    [val * (pwm_max - 1) / 255 + 1], truncated; duty 0 gives 1, duty 255
    gives [pwm_max], and the mapping is monotonic (non-decreasing) in the
    duty. *)
Theorem raw_pwm_scaling q w :
  In q gpd_module_quirks ->
  quirk (priv w) = q -> wired q w -> interrupted w = false ->
  (forall val, 0 <= val <= 255 ->
     gpd_generic_write_pwm val w
     = (0, after_write q (pwm_write q) (val * (pwm_max q - 1) / 255 + 1) w) /\
     written_pwm val w = val * (pwm_max q - 1) / 255 + 1) /\
  written_pwm 0 w = 1 /\
  written_pwm 255 w = pwm_max q /\
  (forall v1 v2, 0 <= v1 <= v2 -> v2 <= 255 ->
     written_pwm v1 w <= written_pwm v2 w).
Proof.
  intros Hin Hq Hw Hi.
  destruct (module_quirk_bounds q Hin) as (Hm & Hoff & _).
  assert (Hval : forall val, 0 <= val <= 255 ->
     gpd_generic_write_pwm val w
     = (0, after_write q (pwm_write q) (val * (pwm_max q - 1) / 255 + 1) w) /\
     written_pwm val w = val * (pwm_max q - 1) / 255 + 1).
  { intros val Hv. unfold written_pwm.
    rewrite generic_write_pwm_granted; rewrite ?Hq; try assumption.
    rewrite (raw_pwm_exact _ _ Hm Hv). split; [reflexivity |].
    cbn [snd]. apply peek_after_write_eq. }
  split; [exact Hval |]. split; [| split].
  - rewrite (proj2 (Hval 0 ltac:(lia))). reflexivity.
  - rewrite (proj2 (Hval 255 ltac:(lia))).
    rewrite Z.mul_comm, Z.div_mul by lia. lia.
  - intros v1 v2 H12 H2.
    rewrite (proj2 (Hval v1 ltac:(lia))), (proj2 (Hval v2 ltac:(lia))).
    apply Z.add_le_mono_r. apply Z.div_le_mono; [lia | nia].
Qed.

(** ** win-max-2 PWM read-back *)

Lemma wm2_read_pwm_granted w :
  quirk (priv w) = gpd_wm2_quirk -> wired gpd_wm2_quirk w ->
  interrupted w = false ->
  gpd_wm2_read_pwm_uncached w
  = (u8 (EC.peek (ec w) (pwm_write gpd_wm2_quirk)) * 255
       / pwm_max gpd_wm2_quirk,
     after_read gpd_wm2_quirk (pwm_write gpd_wm2_quirk) w).
Proof.
  intros Hq Hw Hi.
  unfold gpd_wm2_read_pwm_uncached, the_quirk, bind, get.
  cbv beta iota zeta. rewrite Hq.
  rewrite gpd_ecram_read_ok by (try assumption; unfold is_u16; cbn; lia).
  cbn [Z.ltb Z.compare]. unfold ret. f_equal.
  pose proof (u8_range (EC.peek (ec w) (pwm_write gpd_wm2_quirk))) as Hu.
  unfold is_u8 in Hu. cbn [pwm_max gpd_wm2_quirk].
  rewrite Z.quot_div_nonneg by lia.
  apply s16_small.
  assert (0 <= u8 (EC.peek (ec w) (pwm_write gpd_wm2_quirk)) * 255 / 184)
    by (apply Z.div_pos; lia).
  assert (u8 (EC.peek (ec w) (pwm_write gpd_wm2_quirk)) * 255 / 184 < 2 ^ 15)
    by (apply Z.div_lt_upper_bound; lia).
  lia.
Qed.

(** C6: on win-max-2 a successful uncached PWM read reports
    [raw * 255 / pwm_max] for the byte [raw] of the PWM register; writing
    duty 255 leaves [pwm_max] in the register, and an uncached read after it
    reports a value within 1 of 255. *)
Theorem wm2_pwm_round_trip w :
  quirk (priv w) = gpd_wm2_quirk -> wired gpd_wm2_quirk w -> quiet w ->
  let raw := u8 (EC.peek (ec w) (pwm_write gpd_wm2_quirk)) in
  let w1 := snd (gpd_generic_write_pwm 255 w) in
  fst (gpd_wm2_read_pwm_uncached w) = raw * 255 / pwm_max gpd_wm2_quirk /\
  fst (gpd_generic_write_pwm 255 w) = 0 /\
  EC.peek (ec w1) (pwm_write gpd_wm2_quirk) = pwm_max gpd_wm2_quirk /\
  Z.abs (fst (gpd_wm2_read_pwm_uncached w1) - 255) <= 1.
Proof.
  intros Hq Hw Hs. cbv zeta.
  pose proof (quiet_not_interrupted w Hs) as Hi.
  rewrite (wm2_read_pwm_granted w Hq Hw Hi).
  rewrite generic_write_pwm_granted;
    rewrite ?Hq; try assumption; [| unfold is_u16; cbn; lia].
  cbn [fst snd].
  change (u8 (Z.quot (u8 255 * (pwm_max gpd_wm2_quirk - 1)) 255 + 1))
    with (pwm_max gpd_wm2_quirk).
  rewrite wm2_read_pwm_granted;
    [ | exact Hq | exact Hw
      | apply quiet_not_interrupted, quiet_after_write, Hs ].
  cbn [fst]. rewrite !peek_after_write_eq.
  split; [reflexivity |]. split; [reflexivity |]. split; [reflexivity |].
  vm_compute. intros H; discriminate H.
Qed.

(** ** Failures inside the multi-register sequences *)

Lemma set_pwm_enable_interrupted enable w :
  interrupted w = true ->
  enable = DISABLE \/ enable = MANUAL \/ enable = AUTOMATIC ->
  gpd_set_pwm_enable enable w = (- EINTR, after_intr w).
Proof.
  intros Hi Hen.
  unfold gpd_set_pwm_enable, gpd_win_mini_set_pwm_enable,
    gpd_wm2_set_pwm_enable, gpd_generic_write_pwm, the_quirk, bind, get.
  cbv beta iota zeta.
  destruct (board (quirk (priv w)));
    destruct Hen as [-> | [-> | ->]]; cbn [Z.eqb DISABLE MANUAL AUTOMATIC Pos.eqb];
    rewrite gpd_ecram_write_intr by assumption; reflexivity.
Qed.

Lemma rpm_in_ram_after_write q q' off v w :
  off <> rpm_read q -> off <> rpm_read q + 1 ->
  rpm_in_ram q (ec (after_write q' off v w)) = rpm_in_ram q (ec w).
Proof.
  intros H1 H2. unfold rpm_in_ram.
  now rewrite !peek_after_write_ne by assumption.
Qed.

Lemma rpm_in_ram_after_read q q' off w :
  rpm_in_ram q (ec (after_read q' off w)) = rpm_in_ram q (ec w).
Proof. reflexivity. Qed.

Lemma rpm_in_ram_after_intr q w :
  rpm_in_ram q (ec (after_intr w)) = rpm_in_ram q (ec w).
Proof. reflexivity. Qed.

Ltac rpm_unchanged :=
  repeat first
    [ rewrite rpm_in_ram_after_read
    | rewrite rpm_in_ram_after_intr
    | rewrite rpm_in_ram_after_write by (cbn; lia) ].

(** After the RPM registers were read, what [gpd_win4_read_rpm_uncached]
    still does never changes the value it returns. *)
Ltac win4_tail :=
  match goal with
  | |- fst ((if ?r <? 0 then _ else _) _) = _ =>
      destruct (r <? 0); cbv beta iota zeta; cbn [ret fst];
      [ reflexivity
      | match goal with
        | |- fst (let (_, _) := ?X in _) = _ => destruct X; reflexivity
        end ]
  end.

Lemma win4_read_rpm_first_interrupted w l :
  quirk (priv w) = gpd_win4_quirk -> wired gpd_win4_quirk w ->
  signals w = true :: l -> Forall (fun b => b = false) l ->
  fst (gpd_win4_read_rpm_uncached w) = rpm_in_ram gpd_win4_quirk (ec w).
Proof.
  intros Hq Hw Hs Hl.
  unfold gpd_win4_read_rpm_uncached, the_quirk, bind, get.
  cbv beta iota zeta. rewrite Hq.
  access_step.
  destruct (negb (u8 (PWMCTR0 (stack w)) =? 127)).
  - access_step. unfold ret at 1. cbv beta iota zeta.
    rpm_step gpd_win4_quirk.
    rewrite rpm_in_ram_after_write by (cbn; lia).
    change (ec (after_intr w)) with (ec w). win4_tail.
  - unfold ret at 1. cbv beta iota zeta.
    rpm_step gpd_win4_quirk.
    change (ec (after_intr w)) with (ec w). win4_tail.
Qed.

Lemma for_u16_wm2 (body : Z -> M unit) :
  for_u16 4 0x1841 0x1843 body
  = bind (body 0x1841) (fun _ =>
      bind (body 0x1842) (fun _ => bind (body 0x1843) (fun _ => ret tt))).
Proof. reflexivity. Qed.

Lemma wm2_read_rpm_first_interrupted w l :
  quirk (priv w) = gpd_wm2_quirk -> wired gpd_wm2_quirk w ->
  signals w = true :: l -> Forall (fun b => b = false) l ->
  fst (gpd_wm2_read_rpm_uncached w) = rpm_in_ram gpd_wm2_quirk (ec w).
Proof.
  intros Hq Hw Hs Hl.
  unfold gpd_wm2_read_rpm_uncached, the_quirk. unfold bind at 1. unfold get.
  cbv beta iota zeta. rewrite Hq, for_u16_wm2.
  unfold bind, get. cbv beta iota zeta.
  access_step.
  repeat first
    [ access_step
    | progress (unfold ret at 1; cbv beta iota zeta)
    | match goal with
      | |- context [if negb ?c then _ else _] => destruct (negb c)
      end ];
  rpm_step gpd_wm2_quirk; cbn [fst]; rpm_unchanged; reflexivity.
Qed.

Lemma gpd_ecram_write_outcomes q off v w :
  gpd_ecram_write q off v w = (- EINTR, after_intr w) \/
  (fst (gpd_ecram_write q off v w) = 0 /\
   exists t, io_log (snd (gpd_ecram_write q off v w)) = io_log w ++ t).
Proof.
  destruct (interrupted w) eqn:Hi.
  - left. now apply gpd_ecram_write_intr.
  - right. split.
    + rewrite gpd_ecram_write_fst, Hi. reflexivity.
    + apply (framed_ecram_write q off v w).
Qed.

Lemma single_write_stops q off v w :
  stops_at_failure w (gpd_ecram_write q off v w).
Proof.
  intros Hr.
  destruct (gpd_ecram_write_outcomes q off v w) as [E | (E & _)];
    [| congruence].
  rewrite E. split; [reflexivity |]. now exists [].
Qed.

Lemma two_steps_stop (m k : M Z) w :
  (m w = (- EINTR, after_intr w) \/
   (fst (m w) = 0 /\ exists t, io_log (snd (m w)) = io_log w ++ t)) ->
  (forall w1, stops_at_failure w1 (k w1)) ->
  stops_at_failure w
    (bind m (fun r => if negb (r =? 0) then ret r else k) w).
Proof.
  intros Hm Hk. unfold bind.
  destruct Hm as [E | (E & t & Ht)].
  - rewrite E. intros _. split; [reflexivity |]. now exists [].
  - destruct (m w) as [r w1]. cbn [fst snd] in E, Ht.
    subst r. cbn [negb Z.eqb]. intros Hr.
    destruct (Hk w1 Hr) as (Hf & t' & Ht').
    split; [exact Hf |]. exists (t ++ t').
    rewrite Ht', Ht. now rewrite <- !app_assoc.
Qed.

Lemma win_mini_set_pwm_enable_stops enable w :
  stops_at_failure w (gpd_win_mini_set_pwm_enable enable w).
Proof.
  unfold gpd_win_mini_set_pwm_enable, gpd_generic_write_pwm, the_quirk,
    bind, get. cbv beta iota zeta.
  destruct (enable =? DISABLE); [apply single_write_stops |].
  destruct (enable =? MANUAL); [apply single_write_stops |].
  destruct (enable =? AUTOMATIC); [apply single_write_stops |].
  intros H. now contradiction H.
Qed.

Lemma wm2_set_pwm_enable_stops enable w :
  stops_at_failure w (gpd_wm2_set_pwm_enable enable w).
Proof.
  unfold gpd_wm2_set_pwm_enable, gpd_generic_write_pwm, the_quirk.
  unfold bind at 1. unfold get. cbv beta iota zeta.
  destruct (enable =? DISABLE).
  { unfold bind at 2. unfold get. cbv beta iota zeta.
    refine (two_steps_stop _ _ w _ _).
    - apply gpd_ecram_write_outcomes.
    - intros w1. apply single_write_stops. }
  destruct (enable =? MANUAL).
  { unfold bind at 1 3. unfold get. cbv beta iota zeta.
    refine (two_steps_stop _ _ w _ _).
    - apply gpd_ecram_write_outcomes.
    - intros w1. apply single_write_stops. }
  destruct (enable =? AUTOMATIC).
  { unfold bind.
    pose proof (single_write_stops (quirk (priv w))
                  (manual_control_enable (quirk (priv w))) 0 w) as H.
    destruct (gpd_ecram_write (quirk (priv w))
                (manual_control_enable (quirk (priv w))) 0 w).
    exact H. }
  intros H. now contradiction H.
Qed.

Lemma set_pwm_enable_stops enable w :
  stops_at_failure w (gpd_set_pwm_enable enable w).
Proof.
  unfold gpd_set_pwm_enable, the_quirk. unfold bind at 1. unfold get.
  cbv beta iota zeta.
  destruct (board (quirk (priv w)));
    first [ apply win_mini_set_pwm_enable_stops
          | apply wm2_set_pwm_enable_stops ].
Qed.

(** The value both model-specific RPM reads return is the one the generic
    read returns in the world the fixup leaves, whatever happened to the
    accesses of the fixup. *)
Lemma win4_read_rpm_after_fixup w :
  fst (gpd_win4_read_rpm_uncached w)
  = fst (gpd_generic_read_rpm_uncached (snd (win4_fixup w))).
Proof.
  unfold gpd_win4_read_rpm_uncached, win4_fixup, the_quirk, bind, get.
  cbv beta iota zeta.
  destruct (gpd_ecram_read (quirk (priv w)) 6209 (u8 (PWMCTR0 (stack w))) w)
    as [[r PWMCTR] w1].
  destruct (negb (PWMCTR =? 127)).
  - destruct (gpd_ecram_write (quirk (priv w)) 6209 127 w1) as [r' w2].
    cbn [ret snd].
    destruct (gpd_generic_read_rpm_uncached w2) as [r0 w3]. cbn [fst].
    destruct (r0 <? 0); [reflexivity |].
    match goal with
    | |- fst (let (_, _) := ?X in _) = _ => destruct X; reflexivity
    end.
  - cbn [ret snd].
    destruct (gpd_generic_read_rpm_uncached w1) as [r0 w3]. cbn [fst].
    destruct (r0 <? 0); [reflexivity |].
    match goal with
    | |- fst (let (_, _) := ?X in _) = _ => destruct X; reflexivity
    end.
Qed.

Lemma then_generic_read {A} (f : gpd_board_quirk -> M A) (g : M Z) w :
  fst (bind the_quirk (fun q => bind (f q) (fun _ => g)) w)
  = fst (g (snd (bind the_quirk f w))).
Proof.
  unfold the_quirk, bind, get. cbv beta iota zeta.
  destruct (f (quirk (priv w)) w). reflexivity.
Qed.

Lemma wm2_read_rpm_after_fixup w :
  fst (gpd_wm2_read_rpm_uncached w)
  = fst (gpd_generic_read_rpm_uncached (snd (wm2_fixup w))).
Proof.
  exact (then_generic_read
           (fun q =>
              for_u16 4 0x1841 0x1843 (fun pwm_ctr_offset =>
                do PWMCTR <- get (fun w => u8 (PWMCTR0 (stack w)));
                do '(_, PWMCTR) <- gpd_ecram_read q pwm_ctr_offset PWMCTR;
                if negb (PWMCTR =? 0xB8)
                then (do _ <- gpd_ecram_write q pwm_ctr_offset 0xB8; ret tt)
                else ret tt))
           gpd_generic_read_rpm_uncached w).
Qed.

(** The second write of the win-max-2 Disabled and Manual sequences fails:
    the duty is in the PWM register, the manual-control register is not
    written. *)
Lemma wm2_set_pwm_enable_second_interrupted enable w l :
  enable = DISABLE \/ enable = MANUAL ->
  quirk (priv w) = gpd_wm2_quirk -> wired gpd_wm2_quirk w ->
  signals w = false :: true :: l ->
  let duty := if enable =? DISABLE then 255 else pwm_value (priv w) in
  let raw := u8 (Z.quot (u8 duty * (pwm_max gpd_wm2_quirk - 1)) 255 + 1) in
  gpd_set_pwm_enable enable w
  = (- EINTR, after_intr (after_write gpd_wm2_quirk 0x1809 raw w)).
Proof.
  intros Hen Hq Hw Hs. cbv zeta.
  assert (Hi : interrupted w = false) by (unfold interrupted; now rewrite Hs).
  assert (Hg : forall val,
    gpd_generic_write_pwm val w
    = (0, after_write gpd_wm2_quirk 0x1809
            (u8 (Z.quot (u8 val * (pwm_max gpd_wm2_quirk - 1)) 255 + 1)) w)).
  { intros val. rewrite generic_write_pwm_granted;
      rewrite ?Hq; try assumption; [reflexivity | unfold is_u16; cbn; lia]. }
  unfold gpd_set_pwm_enable, gpd_wm2_set_pwm_enable, the_quirk, bind, get.
  cbv beta iota zeta. rewrite Hq. cbn [board gpd_wm2_quirk].
  destruct Hen as [-> | ->];
    cbn [Z.eqb DISABLE MANUAL Pos.eqb]; rewrite Hg; cbn [negb Z.eqb];
    rewrite gpd_ecram_write_intr
      by (unfold interrupted; cbn [signals after_write]; now rewrite Hs);
    reflexivity.
Qed.

(** C2, amended: in the set-mode write sequences a failed register access
    is the last thing the sequence does (the steps after it are not run,
    nothing is retried) and its error is what the caller gets.  When the
    wait of the first access is interrupted, on every board and in every
    mode, the handler returns [-EINTR] having done nothing but that wait:
    no port is touched.  When the first write of the win-max-2 Disabled or
    Manual sequence succeeds and the wait of the second is interrupted, the
    handler returns [-EINTR] after the complete write of the duty and the
    one failed wait: the manual-control register is not written.  The win4
    and win-max-2 pre-read fixups instead drop the results of their
    register accesses: the value returned is always that of the RPM read run
    after the fixup; when the wait of the first fixup read is interrupted
    and no later one is, the caller gets the fan speed held by the RPM
    registers, not the error. *)
Theorem sequence_failure_semantics :
  (forall enable w,
     enable = DISABLE \/ enable = MANUAL \/ enable = AUTOMATIC ->
     interrupted w = true ->
     let r := gpd_set_pwm_enable enable w in
     r = (- EINTR, after_intr w) /\
     io_log (snd r) = io_log w ++ [Lock (- EINTR)] /\
     ec (snd r) = ec w) /\
  (forall enable w l,
     enable = DISABLE \/ enable = MANUAL ->
     quirk (priv w) = gpd_wm2_quirk -> wired gpd_wm2_quirk w ->
     signals w = false :: true :: l ->
     let duty := if enable =? DISABLE then 255 else pwm_value (priv w) in
     let raw := u8 (Z.quot (u8 duty * (pwm_max gpd_wm2_quirk - 1)) 255 + 1) in
     let r := gpd_set_pwm_enable enable w in
     r = (- EINTR, after_intr (after_write gpd_wm2_quirk 0x1809 raw w)) /\
     io_log (snd r)
     = io_log w ++ write_txn gpd_wm2_quirk 0x1809 raw ++ [Lock (- EINTR)] /\
     EC.peek (ec (snd r)) 0x0275 = EC.peek (ec w) 0x0275) /\
  (forall enable w,
     let r := gpd_set_pwm_enable enable w in
     fst r <> 0 ->
     fst r = - EINTR /\
     exists t, io_log (snd r) = io_log w ++ t ++ [Lock (- EINTR)]) /\
  (forall w,
     fst (gpd_win4_read_rpm_uncached w)
     = fst (gpd_generic_read_rpm_uncached (snd (win4_fixup w)))) /\
  (forall w,
     fst (gpd_wm2_read_rpm_uncached w)
     = fst (gpd_generic_read_rpm_uncached (snd (wm2_fixup w)))) /\
  (forall w l,
     signals w = true :: l -> Forall (fun b => b = false) l ->
     quirk (priv w) = gpd_win4_quirk -> wired gpd_win4_quirk w ->
     fst (gpd_win4_read_rpm_uncached w) = rpm_in_ram gpd_win4_quirk (ec w)) /\
  (forall w l,
     signals w = true :: l -> Forall (fun b => b = false) l ->
     quirk (priv w) = gpd_wm2_quirk -> wired gpd_wm2_quirk w ->
     fst (gpd_wm2_read_rpm_uncached w) = rpm_in_ram gpd_wm2_quirk (ec w)).
Proof.
  split.
  { intros enable w Hen Hi. cbv zeta.
    rewrite (set_pwm_enable_interrupted enable w Hi Hen).
    repeat split. }
  split.
  { intros enable w l Hen Hq Hw Hs. cbv zeta.
    rewrite (wm2_set_pwm_enable_second_interrupted enable w l Hen Hq Hw Hs).
    cbn [snd]. split; [reflexivity |]. split.
    - cbn [io_log after_intr after_write log with_signals].
      now rewrite <- app_assoc.
    - rewrite peek_after_intr. apply peek_after_write_ne. lia. }
  split; [exact set_pwm_enable_stops |].
  split; [exact win4_read_rpm_after_fixup |].
  split; [exact wm2_read_rpm_after_fixup |]. split.
  - intros w l Hs Hl Hq Hw. now apply (win4_read_rpm_first_interrupted w l).
  - intros w l Hs Hl Hq Hw. now apply (wm2_read_rpm_first_interrupted w l).
Qed.

(** ** The statements at concrete worlds *)

Lemma wired_boot HZ q cells sigs now :
  addr_port q <> data_port q -> wired q (boot HZ q cells sigs now).
Proof. intros H. repeat split. exact H. Defined.

Lemma win4_ports : addr_port gpd_win4_quirk <> data_port gpd_win4_quirk.
Proof. intros H; discriminate H. Defined.

Lemma wm2_ports : addr_port gpd_wm2_quirk <> data_port gpd_wm2_quirk.
Proof. intros H; discriminate H. Defined.

Lemma win_mini_ports :
  addr_port gpd_win_mini_quirk <> data_port gpd_win_mini_quirk.
Proof. intros H; discriminate H. Defined.

(** C1: on a stalled win4 whose chip identifier is 0x55 and whose chip
    version reads 3 without failure, the driver returns RPM 0 after reading
    0x2000 and 0x1060, but writes nothing back: the last access is the read
    of 0x1060 and the register still holds 3, not 0x83. *)
Theorem win4_reinit_no_write_after_successful_read :
  let q := gpd_win4_quirk in
  let r := gpd_win4_read_rpm_uncached stalled_win4 in
  fst r = 0 /\
  io_log (snd r)
  = read_txn q 0x1841 0 ++ write_txn q 0x1841 0x7F
    ++ read_txn q 0xC880 0 ++ read_txn q 0xC881 0
    ++ read_txn q 0x2000 0x55 ++ read_txn q 0x1060 3 /\
  EC.peek (ec (snd r)) 0x1060 = 3.
Proof. vm_compute. repeat split. Qed.

(** The write-back runs when the read of the chip version fails, with the
    indeterminate content of [chip_ver]. *)
Example win4_reinit_writes_after_failed_read :
  let q := gpd_win4_quirk in
  let r := gpd_win4_read_rpm_uncached stalled_win4_version_read_fails in
  fst r = 0 /\
  io_log (snd r)
  = read_txn q 0x1841 0 ++ write_txn q 0x1841 0x7F
    ++ read_txn q 0xC880 0 ++ read_txn q 0xC881 0
    ++ read_txn q 0x2000 0x55 ++ [Lock (- EINTR)]
    ++ write_txn q 0x1060 0x80 /\
  EC.peek (ec (snd r)) 0x1060 = 0x80.
Proof. vm_compute. repeat split. Qed.

(** C2, as stated, fails: the wait of the win4 fixup read of 0x1841 is
    interrupted, yet the sequence goes on (write of 0x1841, then the two RPM
    reads) and the caller gets 1200 RPM, not the error. *)
Lemma win4_fixup_failure_not_returned :
  let q := gpd_win4_quirk in
  let r := gpd_win4_read_rpm_uncached win4_first_wait_interrupted in
  interrupted win4_first_wait_interrupted = true /\
  fst r = 1200 /\
  io_log (snd r)
  = Lock (- EINTR) :: write_txn q 0x1841 0x7F
    ++ read_txn q 0xC880 0x04 ++ read_txn q 0xC881 0xB0.
Proof. vm_compute. repeat split. Qed.

(** C3, as stated, fails: on win-mini duties 0 and 1 both write raw 1, so
    the mapping is not strictly monotonic. *)
Lemma raw_pwm_not_strictly_monotonic :
  written_pwm 0 win_mini_at_init = 1 /\
  written_pwm 1 win_mini_at_init = 1 /\
  ~ (written_pwm 0 win_mini_at_init < written_pwm 1 win_mini_at_init).
Proof. vm_compute. repeat split. intros H; discriminate H. Qed.


Lemma sequence_failure_semantics_witness :
  (let r := gpd_set_pwm_enable MANUAL wm2_first_wait_interrupted in
   r = (- EINTR, after_intr wm2_first_wait_interrupted) /\
   io_log (snd r) = [Lock (- EINTR)] /\
   ec (snd r) = ec wm2_first_wait_interrupted) /\
  (let r := gpd_set_pwm_enable MANUAL wm2_second_wait_interrupted in
   r = (- EINTR,
        after_intr
          (after_write gpd_wm2_quirk 0x1809 92 wm2_second_wait_interrupted)) /\
   io_log (snd r) = write_txn gpd_wm2_quirk 0x1809 92 ++ [Lock (- EINTR)] /\
   EC.peek (ec (snd r)) 0x0275 = 0) /\
  fst (gpd_win4_read_rpm_uncached win4_first_wait_interrupted)
  = rpm_in_ram gpd_win4_quirk (ec win4_first_wait_interrupted) /\
  fst (gpd_wm2_read_rpm_uncached wm2_first_wait_interrupted)
  = rpm_in_ram gpd_wm2_quirk (ec wm2_first_wait_interrupted).
Proof.
  destruct sequence_failure_semantics
    as (Hfirst & Hsecond & _ & _ & _ & Hwin4 & Hwm2).
  split; [| split; [| split]].
  - apply (Hfirst MANUAL wm2_first_wait_interrupted).
    + right; left; reflexivity.
    + reflexivity.
  - apply (Hsecond MANUAL wm2_second_wait_interrupted []).
    + right; reflexivity.
    + reflexivity.
    + repeat split. exact wm2_ports.
    + reflexivity.
  - apply (Hwin4 win4_first_wait_interrupted []).
    + reflexivity.
    + constructor.
    + reflexivity.
    + apply wired_boot, win4_ports.
  - apply (Hwm2 wm2_first_wait_interrupted []).
    + reflexivity.
    + constructor.
    + reflexivity.
    + apply wired_boot, wm2_ports.
Defined.

Lemma raw_pwm_scaling_witness :
  written_pwm 128 wm2_at_init = 128 * (184 - 1) / 255 + 1 /\
  written_pwm 0 wm2_at_init = 1 /\
  written_pwm 255 wm2_at_init = 184 /\
  written_pwm 100 wm2_at_init <= written_pwm 101 wm2_at_init.
Proof.
  assert (Hin : In gpd_wm2_quirk gpd_module_quirks)
    by (right; right; left; reflexivity).
  destruct (raw_pwm_scaling gpd_wm2_quirk wm2_at_init Hin eq_refl
              (wired_boot 1000 gpd_wm2_quirk _ [] 5000 wm2_ports) eq_refl)
    as (Hval & H0 & H255 & Hmono).
  split; [| split; [| split]].
  - apply (Hval 128). lia.
  - exact H0.
  - exact H255.
  - apply Hmono; lia.
Defined.

Lemma read_pwm_duty_range_witness :
  let w := at_time 5001 wm2_at_init in
  0 <= fst (gpd_read_pwm 1000 w) <= 255 /\
  0 <= snd (fst (gpd_fan_hwmon_read 1000 hwmon_pwm hwmon_pwm_input 0 w)) <= 255.
Proof.
  assert (H8 : is_u8 255) by (unfold is_u8; lia).
  assert (H0 : is_u8 0) by (unfold is_u8; lia).
  destruct (read_pwm_duty_range 1000 (at_time 5001 wm2_at_init) 0 H8 H0)
    as (Hread & Hhwmon).
  split.
  - apply Hread. vm_compute. discriminate.
  - apply Hhwmon. reflexivity.
Defined.

Lemma wm2_pwm_round_trip_witness :
  fst (gpd_wm2_read_pwm_uncached wm2_at_init) = 92 * 255 / 184 /\
  fst (gpd_generic_write_pwm 255 wm2_at_init) = 0 /\
  EC.peek (ec (snd (gpd_generic_write_pwm 255 wm2_at_init))) 0x1809 = 184 /\
  Z.abs (fst (gpd_wm2_read_pwm_uncached
                (snd (gpd_generic_write_pwm 255 wm2_at_init))) - 255) <= 1.
Proof.
  apply (wm2_pwm_round_trip wm2_at_init).
  - reflexivity.
  - apply wired_boot, wm2_ports.
  - constructor.
Defined.

Lemma set_mode_validates_witness :
  gpd_fan_hwmon_write hwmon_pwm hwmon_pwm_enable 3 win_mini_at_init
  = (- EINVAL, win_mini_at_init) /\
  gpd_fan_hwmon_write hwmon_pwm hwmon_pwm_enable (-1) win_mini_at_init
  = (- EINVAL, win_mini_at_init) /\
  fst (gpd_fan_hwmon_write hwmon_pwm hwmon_pwm_enable 1 win_mini_at_init)
  <> - EINVAL /\
  pwm_enable
    (priv (snd (gpd_fan_hwmon_write hwmon_pwm hwmon_pwm_enable 1
                  win_mini_at_init))) = 1.
Proof.
  split; [| split].
  - apply (set_mode_validates 3 win_mini_at_init); [unfold is_long; lia | lia].
  - apply (set_mode_validates (-1) win_mini_at_init);
      [unfold is_long; lia | lia].
  - apply (set_mode_validates 1 win_mini_at_init); [unfold is_long; lia | lia].
Defined.

Lemma set_mode_failure_keeps_new_mode_witness :
  pwm_enable (priv wm2_first_wait_interrupted) = AUTOMATIC /\
  pwm_enable
    (priv (snd (gpd_fan_hwmon_write hwmon_pwm hwmon_pwm_enable MANUAL
                  wm2_first_wait_interrupted))) = MANUAL /\
  fst (gpd_fan_hwmon_write hwmon_pwm hwmon_pwm_enable MANUAL
         wm2_first_wait_interrupted)
  = fst (gpd_set_pwm_enable MANUAL
           (with_priv (set_pwm_enable MANUAL) wm2_first_wait_interrupted)).
Proof.
  split; [reflexivity |].
  apply (set_mode_failure_keeps_new_mode MANUAL wm2_first_wait_interrupted).
  - right; left; reflexivity.
  - vm_compute. intros H; discriminate H.
Defined.

Lemma win_mini_pwm_readback_without_write_witness :
  let r := gpd_fan_hwmon_write hwmon_pwm hwmon_pwm_input 100 win_mini_at_init in
  fst r = 0 /\ io_log (snd r) = [] /\
  fst (gpd_read_pwm 1000 (snd r)) = 100.
Proof.
  destruct (win_mini_pwm_readback_without_write 1000 100 win_mini_at_init
              eq_refl (or_intror eq_refl))
    as (H0 & Hlog & _ & _ & _ & Hread).
  split; [exact H0 |]. split; [exact Hlog |]. apply Hread. lia.
Defined.

(** * Further properties of the driver *)

(** ** Lock discipline *)

Lemma lock_run_app t1 t2 held :
  lock_run held (t1 ++ t2)
  = match lock_run held t1 with
    | Some held' => lock_run held' t2
    | None => None
    end.
Proof.
  revert held. induction t1 as [| e t1 IH]; intros held; [reflexivity |].
  destruct e; cbn [lock_run app]; destruct held; auto.
Qed.

Lemma serialized_app t1 t2 :
  serialized t1 -> serialized t2 -> serialized (t1 ++ t2).
Proof.
  unfold serialized. intros H1 H2. now rewrite lock_run_app, H1.
Qed.

Lemma disciplined_ret {A} (a : A) : disciplined (ret a).
Proof. intros w. exists []. split; [now rewrite app_nil_r | reflexivity]. Qed.

Lemma disciplined_get {A} (f : world -> A) : disciplined (get f).
Proof. intros w. exists []. split; [now rewrite app_nil_r | reflexivity]. Qed.

Lemma disciplined_modify_priv f : disciplined (modify_priv f).
Proof. intros w. exists []. split; [now rewrite app_nil_r | reflexivity]. Qed.

Lemma disciplined_bind {A B} (m : M A) (k : A -> M B) :
  disciplined m -> (forall a, disciplined (k a)) -> disciplined (bind m k).
Proof.
  intros Hm Hk w. unfold bind. destruct (Hm w) as (t1 & E1 & S1).
  destruct (m w) as [a w1]. cbn [snd] in E1.
  destruct (Hk a w1) as (t2 & E2 & S2).
  exists (t1 ++ t2). split; [| now apply serialized_app].
  rewrite E2, E1. now rewrite app_assoc.
Qed.

Ltac access_discipline w :=
  destruct w as [p h l sg j st];
  cbv [bind ret outb inb mutex_unlock log with_ec with_signals fst snd
       ec priv io_log signals jiffies stack negb Z.eqb];
  eexists; split;
  [ repeat rewrite <- app_assoc; reflexivity | reflexivity ].

Lemma disciplined_ecram_read q off v : disciplined (gpd_ecram_read q off v).
Proof.
  intros w. unfold gpd_ecram_read. unfold bind at 1.
  unfold mutex_lock_interruptible at 1.
  destruct (interrupted w).
  - exists [Lock (- EINTR)]. split; reflexivity.
  - access_discipline w.
Qed.

Lemma disciplined_ecram_write q off v : disciplined (gpd_ecram_write q off v).
Proof.
  intros w. unfold gpd_ecram_write. unfold bind at 1.
  unfold mutex_lock_interruptible at 1.
  destruct (interrupted w).
  - exists [Lock (- EINTR)]. split; reflexivity.
  - access_discipline w.
Qed.

Ltac disciplined_step :=
  lazymatch goal with
  | |- disciplined (bind _ _) => apply disciplined_bind; [ | intros ]
  | |- disciplined (ret _) => apply disciplined_ret
  | |- disciplined (get _) => apply disciplined_get
  | |- disciplined (modify_priv _) => apply disciplined_modify_priv
  | |- disciplined (gpd_ecram_read _ _ _) => apply disciplined_ecram_read
  | |- disciplined (gpd_ecram_write _ _ _) => apply disciplined_ecram_write
  | |- disciplined (if ?c then _ else _) => destruct c
  | |- disciplined (let '(_, _) := ?x in _) => destruct x
  | |- disciplined (match ?x with _ => _ end) => destruct x
  end.

Ltac disciplined_tac := repeat first [ assumption | disciplined_step ].

Lemma disciplined_generic_read_rpm : disciplined gpd_generic_read_rpm_uncached.
Proof. unfold gpd_generic_read_rpm_uncached, the_quirk. disciplined_tac. Qed.

Lemma disciplined_for_u16 fuel (body : Z -> M unit) :
  (forall i, disciplined (body i)) ->
  forall i hi, disciplined (for_u16 fuel i hi body).
Proof.
  intros Hb. induction fuel as [| fuel IH]; intros i hi; cbn [for_u16].
  - apply disciplined_ret.
  - destruct (i <=? hi); [| apply disciplined_ret].
    apply disciplined_bind; [apply Hb | intros _; apply IH].
Qed.

Lemma disciplined_read_rpm HZ : disciplined (gpd_read_rpm HZ).
Proof.
  pose proof disciplined_generic_read_rpm as Hg.
  unfold gpd_read_rpm, gpd_win4_read_rpm_uncached, gpd_wm2_read_rpm_uncached,
    the_quirk.
  repeat first
    [ assumption | disciplined_step
    | apply disciplined_for_u16; intros ].
Qed.

Lemma disciplined_read_pwm HZ : disciplined (gpd_read_pwm HZ).
Proof.
  unfold gpd_read_pwm, gpd_wm2_read_pwm_uncached, the_quirk. disciplined_tac.
Qed.

Lemma disciplined_generic_write_pwm val :
  disciplined (gpd_generic_write_pwm val).
Proof. unfold gpd_generic_write_pwm, the_quirk. disciplined_tac. Qed.

Lemma disciplined_write_pwm val : disciplined (gpd_write_pwm val).
Proof.
  pose proof (disciplined_generic_write_pwm val) as Hg.
  unfold gpd_write_pwm, gpd_win_mini_write_pwm, gpd_wm2_write_pwm, the_quirk.
  disciplined_tac.
Qed.

Lemma disciplined_set_pwm_enable enable :
  disciplined (gpd_set_pwm_enable enable).
Proof.
  pose proof disciplined_generic_write_pwm as Hg.
  unfold gpd_set_pwm_enable, gpd_win_mini_set_pwm_enable,
    gpd_wm2_set_pwm_enable, the_quirk.
  repeat first [ assumption | disciplined_step | apply Hg ].
Qed.

(** X1: whatever the board, the mode, the EC and the interruptions, every
    hwmon callback and the remove hook extend the log by complete
    transactions only: ports are touched only between a wait on
    [gpd_fan_lock] that returned 0 and its release, and the lock is free
    when the call returns, also on the error paths. *)
Theorem ec_access_always_under_lock HZ type attr val :
  disciplined (gpd_fan_hwmon_read HZ type attr val) /\
  disciplined (gpd_fan_hwmon_write type attr val) /\
  disciplined gpd_fan_remove.
Proof.
  pose proof (disciplined_read_rpm HZ) as Hrpm.
  pose proof (disciplined_read_pwm HZ) as Hpwm.
  pose proof disciplined_write_pwm as Hw.
  pose proof disciplined_set_pwm_enable as Hs.
  split; [| split].
  - unfold gpd_fan_hwmon_read. destruct type;
      repeat first [ assumption | disciplined_step ].
  - unfold gpd_fan_hwmon_write. destruct type;
      repeat first [ assumption | disciplined_step | apply Hw | apply Hs ].
  - unfold gpd_fan_remove.
    repeat first [ assumption | disciplined_step | apply Hs ].
Qed.

(** ** The port transport against the EC *)

(** X2: when the wait on the lock is not interrupted, [gpd_ecram_read]
    performs the selection of the offset and one data-port read under the
    lock, returns 0 and the byte the EC RAM holds at the offset, and leaves
    the RAM as it was; [gpd_ecram_write] performs the same selection and one
    data-port write, returns 0, and changes the RAM at that offset and
    nowhere else.  Neither touches the driver's private data. *)
Theorem ecram_access_effect q off v w :
  wired q w -> is_u16 off -> interrupted w = false ->
  let rd := gpd_ecram_read q off v w in
  let wr := gpd_ecram_write q off v w in
  (fst rd = (0, u8 (EC.peek (ec w) off)) /\
   io_log (snd rd) = io_log w ++ read_txn q off (u8 (EC.peek (ec w) off)) /\
   EC.ram (ec (snd rd)) = EC.ram (ec w) /\ priv (snd rd) = priv w) /\
  (fst wr = 0 /\
   io_log (snd wr) = io_log w ++ write_txn q off (u8 v) /\
   EC.peek (ec (snd wr)) off = u8 v /\
   (forall o, o <> off -> EC.peek (ec (snd wr)) o = EC.peek (ec w) o) /\
   priv (snd wr) = priv w).
Proof.
  intros Hw Hoff Hi. cbv zeta.
  rewrite (gpd_ecram_read_ok q off v w Hw Hoff Hi).
  rewrite (gpd_ecram_write_ok q off v w Hw Hoff Hi).
  cbn [fst snd]. repeat split.
  - apply peek_after_write_eq.
  - intros o Ho. apply peek_after_write_ne. congruence.
Qed.

Lemma ecram_access_effect_witness :
  fst (gpd_ecram_read gpd_wm2_quirk 0x1809 0 wm2_at_init) = (0, 92) /\
  EC.peek (ec (snd (gpd_ecram_write gpd_wm2_quirk 0x0275 1 wm2_at_init)))
    0x0275 = 1.
Proof.
  destruct (ecram_access_effect gpd_wm2_quirk 0x1809 0 wm2_at_init
              (wired_boot 1000 gpd_wm2_quirk _ [] 5000 wm2_ports)
              ltac:(unfold is_u16; lia) eq_refl) as ((Hr & _) & _).
  destruct (ecram_access_effect gpd_wm2_quirk 0x0275 1 wm2_at_init
              (wired_boot 1000 gpd_wm2_quirk _ [] 5000 wm2_ports)
              ltac:(unfold is_u16; lia) eq_refl) as (_ & _ & _ & Hp & _).
  split; [exact Hr | exact Hp].
Defined.

(** X3: a write followed by a read of the same offset, neither wait
    interrupted, reads back the byte written; a read of any other offset
    after the write returns what that offset held before it. *)
Theorem ecram_write_read_round_trip q off off' v v0 w :
  wired q w -> is_u16 off -> is_u16 off' -> quiet w ->
  let w1 := snd (gpd_ecram_write q off v w) in
  fst (gpd_ecram_read q off v0 w1) = (0, u8 v) /\
  (off' <> off ->
   fst (gpd_ecram_read q off' v0 w1) = (0, u8 (EC.peek (ec w) off'))).
Proof.
  intros Hw Hoff Hoff' Hq. cbv zeta.
  rewrite (gpd_ecram_write_ok q off v w Hw Hoff (quiet_not_interrupted w Hq)).
  cbn [snd].
  assert (Hi : interrupted (after_write q off (u8 v) w) = false)
    by (apply quiet_not_interrupted, quiet_after_write, Hq).
  rewrite !gpd_ecram_read_ok by (try assumption; now apply wired_after_write).
  cbn [fst]. split.
  - now rewrite peek_after_write_eq, u8_idem.
  - intros Hne. rewrite peek_after_write_ne by congruence. reflexivity.
Qed.

Lemma ecram_write_read_round_trip_witness :
  let w1 := snd (gpd_ecram_write gpd_win4_quirk 0xC311 300 stalled_win4) in
  fst (gpd_ecram_read gpd_win4_quirk 0xC311 0 w1) = (0, 44) /\
  fst (gpd_ecram_read gpd_win4_quirk 0x2000 0 w1) = (0, 0x55).
Proof.
  destruct (ecram_write_read_round_trip gpd_win4_quirk 0xC311 0x2000 300 0
              stalled_win4
              (wired_boot 1000 gpd_win4_quirk _ [] 5000 win4_ports)
              ltac:(unfold is_u16; lia) ltac:(unfold is_u16; lia)
              ltac:(constructor)) as (Hsame & Hother).
  split; [exact Hsame |]. apply Hother. lia.
Defined.

(** ** Fan speed *)

Lemma gpd_read_rpm_result HZ w :
  is_u16 (fan_speed_cached (priv w)) ->
  rpm_result (fst (gpd_read_rpm HZ w)) /\
  is_u16 (fan_speed_cached (priv (snd (gpd_read_rpm HZ w)))).
Proof.
  intros Hc.
  destruct (time_after (jiffies w)
              (ulong (fan_speed_last_update (priv w) + HZ))) eqn:Ht.
  - destruct (gpd_read_rpm_stale HZ w Ht) as (_ & Hcase).
    unfold gpd_read_rpm, the_quirk, bind, get in *.
    cbv beta iota zeta in *. rewrite Ht in *. cbv beta iota zeta in *.
    destruct (uncached_rpm_dispatch (board (quirk (priv w)))) as (Hf & _ & Hr).
    cbv zeta in Hf, Hr. specialize (Hf w). specialize (Hr w).
    destruct (match board (quirk (priv w)) with
              | win_mini => gpd_generic_read_rpm_uncached
              | win4_6800u => gpd_win4_read_rpm_uncached
              | win_max_2 => gpd_wm2_read_rpm_uncached
              end w) as [r w1].
    cbn [fst snd] in *. destruct Hf as (Hp & _).
    unfold rpm_result, EINTR in *.
    destruct (Z.ltb_spec r 0) as [Hneg | Hpos]; cbn.
    + split; [lia |]. now rewrite Hp.
    + rewrite u16_small by (unfold is_u16; lia). split; [lia |].
      unfold is_u16. lia.
  - rewrite (gpd_read_rpm_fresh HZ w Ht). cbn [fst snd].
    split; [| exact Hc]. right. exact Hc.
Qed.

(** X4: reading fan1_input through the hwmon callback either succeeds with
    a speed in [0,65535], or fails with [-EINTR] and leaves the output
    argument as it was; the cached speed stays a 16-bit value. *)
Theorem fan_input_read_result HZ val w :
  is_u16 (fan_speed_cached (priv w)) ->
  let r := gpd_fan_hwmon_read HZ hwmon_fan hwmon_fan_input val w in
  ((fst (fst r) = 0 /\ 0 <= snd (fst r) < 2 ^ 16) \/
   (fst (fst r) = - EINTR /\ snd (fst r) = val)) /\
  is_u16 (fan_speed_cached (priv (snd r))).
Proof.
  intros Hc. cbv zeta.
  destruct (gpd_read_rpm_result HZ w Hc) as (Hr & Hc').
  unfold gpd_fan_hwmon_read, bind. cbn [Z.eqb hwmon_fan_input Pos.eqb].
  destruct (gpd_read_rpm HZ w) as [r w1]. cbn [fst snd] in *.
  unfold rpm_result, EINTR in *.
  destruct (Z.ltb_spec r 0); cbn; (split; [| exact Hc']); [right | left]; lia.
Qed.

Lemma fan_input_read_result_witness :
  let r := gpd_fan_hwmon_read 1000 hwmon_fan hwmon_fan_input 7
             (at_time 5001 win_mini_at_init) in
  (fst (fst r) = 0 /\ 0 <= snd (fst r) < 2 ^ 16) \/
  (fst (fst r) = - EINTR /\ snd (fst r) = 7).
Proof.
  apply (fan_input_read_result 1000 7 (at_time 5001 win_mini_at_init)).
  unfold is_u16. cbn. lia.
Defined.

(** X5: on every board profile, when neither wait is interrupted the
    generic RPM read returns [256 * high + low] for the bytes [high] at
    [rpm_read] and [low] at [rpm_read + 1]; when the first read succeeds
    and the wait of the second is interrupted it returns [-EINTR] after
    one complete read transaction and one failed wait, without a retry. *)
Theorem generic_read_rpm_big_endian q w l :
  In q gpd_module_quirks -> quirk (priv w) = q -> wired q w ->
  let high := u8 (EC.peek (ec w) (rpm_read q)) in
  let low := u8 (EC.peek (ec w) (rpm_read q + 1)) in
  (quiet w ->
   fst (gpd_generic_read_rpm_uncached w) = 256 * high + low) /\
  (signals w = false :: true :: l ->
   fst (gpd_generic_read_rpm_uncached w) = - EINTR /\
   io_log (snd (gpd_generic_read_rpm_uncached w))
   = io_log w ++ read_txn q (rpm_read q) high ++ [Lock (- EINTR)]).
Proof.
  intros Hin Hq Hw. cbv zeta.
  destruct (module_quirk_bounds q Hin) as (_ & _ & Hoff & _).
  split.
  - intros Hs. rewrite (generic_read_rpm_quiet q w Hq Hw Hs Hoff).
    cbn [fst]. unfold rpm_in_ram.
    rewrite rpm_join by apply u8_range. lia.
  - intros Hs.
    assert (Hi : interrupted w = false) by (unfold interrupted; now rewrite Hs).
    unfold gpd_generic_read_rpm_uncached, the_quirk, bind, get.
    cbv beta iota zeta. rewrite Hq.
    rewrite gpd_ecram_read_ok by (try assumption; unfold is_u16; lia).
    cbn [negb Z.eqb].
    rewrite gpd_ecram_read_intr
      by (unfold interrupted; cbn [signals after_read]; now rewrite Hs).
    change (- EINTR =? 0) with false. cbn [negb ret fst snd].
    split; [reflexivity |].
    cbn [io_log after_intr after_read log with_signals].
    now rewrite <- app_assoc.
Qed.

Lemma generic_read_rpm_big_endian_witness :
  fst (gpd_generic_read_rpm_uncached win_mini_at_init) = 256 * 4 + 176 /\
  fst (gpd_generic_read_rpm_uncached win_mini_second_wait_interrupted)
  = - EINTR.
Proof.
  assert (Hin : In gpd_win_mini_quirk gpd_module_quirks)
    by (left; reflexivity).
  split.
  - apply (generic_read_rpm_big_endian gpd_win_mini_quirk win_mini_at_init []
             Hin eq_refl
             (wired_boot 1000 gpd_win_mini_quirk _ [] 5000 win_mini_ports)).
    constructor.
  - apply (generic_read_rpm_big_endian gpd_win_mini_quirk
             win_mini_second_wait_interrupted []
             Hin eq_refl
             (wired_boot 1000 gpd_win_mini_quirk _ [false; true] 5000
                win_mini_ports)).
    reflexivity.
Defined.

Ltac peek_simpl :=
  repeat first
    [ rewrite peek_after_read
    | rewrite peek_after_intr
    | rewrite peek_after_write_eq
    | rewrite peek_after_write_ne by (cbn; lia) ].

Ltac quiet_eval q :=
  repeat first
    [ access_step
    | rpm_step q
    | progress change (negb (0 =? 0)) with false
    | progress cbv beta iota zeta
    | progress unfold ret
    | match goal with
      | |- context [if ?c then _ else _] => destruct c eqn:?
      end ].

(** X6: on win4, when no wait is interrupted, the RPM read returns the
    speed held by the RPM registers, leaves register 0x1841 reading 0x7F,
    and changes no other register of the EC: in particular the
    re-initialisation of a stalled controller writes nothing. *)
Theorem win4_read_rpm_quiet w :
  quirk (priv w) = gpd_win4_quirk -> wired gpd_win4_quirk w -> quiet w ->
  let r := gpd_win4_read_rpm_uncached w in
  fst r = rpm_in_ram gpd_win4_quirk (ec w) /\
  u8 (EC.peek (ec (snd r)) 0x1841) = 0x7F /\
  (forall o, o <> 0x1841 -> EC.peek (ec (snd r)) o = EC.peek (ec w) o).
Proof.
  intros Hq Hw Hs. cbv zeta.
  unfold gpd_win4_read_rpm_uncached, the_quirk, bind, get.
  cbv beta iota zeta. rewrite Hq.
  quiet_eval gpd_win4_quirk;
    cbn [fst snd]; rpm_unchanged;
    (split; [reflexivity |]); split;
    try (intros o Ho; peek_simpl; reflexivity);
    peek_simpl; try reflexivity;
    match goal with
    | H : negb (_ =? 127) = false |- _ =>
        apply negb_false_iff, Z.eqb_eq in H; exact H
    end.
Qed.

Lemma win4_read_rpm_quiet_witness :
  let r := gpd_win4_read_rpm_uncached stalled_win4 in
  fst r = 0 /\ u8 (EC.peek (ec (snd r)) 0x1841) = 0x7F /\
  EC.peek (ec (snd r)) 0x1060 = 3.
Proof.
  destruct (win4_read_rpm_quiet stalled_win4 eq_refl
              (wired_boot 1000 gpd_win4_quirk _ [] 5000 win4_ports)
              ltac:(constructor)) as (Hr & Hctr & Hother).
  split; [exact Hr |]. split; [exact Hctr |].
  apply (Hother 0x1060). lia.
Defined.

(** X7: on win-max-2, when no wait is interrupted, the RPM read returns
    the speed held by the RPM registers, leaves registers 0x1841, 0x1842
    and 0x1843 reading 0xB8, and changes no other register of the EC. *)
Theorem wm2_read_rpm_quiet w :
  quirk (priv w) = gpd_wm2_quirk -> wired gpd_wm2_quirk w -> quiet w ->
  let r := gpd_wm2_read_rpm_uncached w in
  fst r = rpm_in_ram gpd_wm2_quirk (ec w) /\
  (forall o, 0x1841 <= o <= 0x1843 -> u8 (EC.peek (ec (snd r)) o) = 0xB8) /\
  (forall o, ~ 0x1841 <= o <= 0x1843 ->
     EC.peek (ec (snd r)) o = EC.peek (ec w) o).
Proof.
  intros Hq Hw Hs. cbv zeta.
  generalize (eq_refl (gpd_wm2_read_rpm_uncached w)).
  generalize (gpd_wm2_read_rpm_uncached w) at 2 3 4 5.
  intros r.
  unfold gpd_wm2_read_rpm_uncached, the_quirk. unfold bind at 1. unfold get.
  cbv beta iota zeta. rewrite Hq, for_u16_wm2.
  unfold bind, get. cbv beta iota zeta.
  quiet_eval gpd_wm2_quirk; intros <-;
    cbn [fst snd]; rpm_unchanged;
    (split; [reflexivity |]); split.
  all: intros o Ho.
  all: try (peek_simpl; reflexivity).
  all: assert (Ho' : o = 0x1841 \/ o = 0x1842 \/ o = 0x1843) by lia.
  all: destruct Ho' as [-> | [-> | ->]]; peek_simpl; try reflexivity.
  all: match goal with
       | H : negb (u8 ?x =? 184) = false |- u8 ?y = 184 =>
           apply negb_false_iff, Z.eqb_eq in H;
           revert H; peek_simpl; intros H; exact H
       end.
Qed.

Lemma wm2_read_rpm_quiet_witness :
  let r := gpd_wm2_read_rpm_uncached wm2_at_init in
  fst r = 0 /\ u8 (EC.peek (ec (snd r)) 0x1842) = 0xB8 /\
  EC.peek (ec (snd r)) 0x1809 = 92.
Proof.
  destruct (wm2_read_rpm_quiet wm2_at_init eq_refl
              (wired_boot 1000 gpd_wm2_quirk _ [] 5000 wm2_ports)
              ltac:(constructor)) as (Hr & Hctr & Hother).
  split; [exact Hr |]. split.
  - apply (Hctr 0x1842). lia.
  - apply (Hother 0x1809). lia.
Defined.

(** ** The caches *)

(** X8: once a read of fan1_input has refreshed the cache, every read
    issued at most [HZ] ticks later returns the same speed and leaves the
    world alone, whatever the EC holds by then. *)
Theorem cached_rpm_stable_within_interval HZ w w2 :
  0 <= HZ < 2 ^ 63 ->
  time_after (jiffies w) (ulong (fan_speed_last_update (priv w) + HZ)) = true ->
  0 <= fst (gpd_read_rpm HZ w) ->
  priv w2 = priv (snd (gpd_read_rpm HZ w)) ->
  elapsed w2 (jiffies w) <= HZ ->
  gpd_read_rpm HZ w2 = (fst (gpd_read_rpm HZ w), w2).
Proof.
  intros HHZ Ht Hok Hp He.
  destruct (gpd_read_rpm_stale HZ w Ht) as (_ & [(Hneg & _) | (_ & Hc & Hl)]);
    [lia |].
  rewrite gpd_read_rpm_fresh; rewrite Hp, ?Hl, ?Hc; [reflexivity |].
  unfold elapsed in He.
  rewrite time_after_elapsed by lia. now apply Z.ltb_ge.
Qed.

Lemma cached_rpm_stable_within_interval_witness :
  let w := at_time 5001 win_mini_at_init in
  let w1 := snd (gpd_read_rpm 1000 w) in
  let w2 := at_time 6001 (with_ec (power_on gpd_win_mini_quirk ∅) w1) in
  fst (gpd_read_rpm 1000 w) = 1200 /\
  gpd_read_rpm 1000 w2 = (1200, w2).
Proof.
  split; [reflexivity |].
  apply (cached_rpm_stable_within_interval 1000
           (at_time 5001 win_mini_at_init)
           (at_time 6001
              (with_ec (power_on gpd_win_mini_quirk ∅)
                 (snd (gpd_read_rpm 1000 (at_time 5001 win_mini_at_init)))))).
  - lia.
  - reflexivity.
  - vm_compute. discriminate.
  - reflexivity.
  - vm_compute. discriminate.
Defined.

(** X9: on win-max-2, a refreshing read of pwm1 whose wait is not
    interrupted reports the rescaled register [raw * 255 / 184] reduced
    modulo 256, since the cache it is returned from is a byte: the exact
    rescaled duty for [raw <= 184], and 256 less than it for a register
    above [pwm_max]. *)
Theorem wm2_read_pwm_wraps HZ w :
  quirk (priv w) = gpd_wm2_quirk -> wired gpd_wm2_quirk w ->
  interrupted w = false ->
  time_after (jiffies w) (ulong (read_pwm_last_update (priv w) + HZ)) = true ->
  let raw := u8 (EC.peek (ec w) 0x1809) in
  let v := fst (gpd_read_pwm HZ w) in
  v = (raw * 255 / 184) mod 256 /\
  (raw <= 184 -> v = raw * 255 / 184) /\
  (184 < raw -> v = raw * 255 / 184 - 256).
Proof.
  intros Hq Hw Hi Ht. cbv zeta.
  pose proof (u8_range (EC.peek (ec w) 6153)) as Hu. unfold is_u8 in Hu.
  assert (Hv : fst (gpd_read_pwm HZ w)
               = u8 (u8 (EC.peek (ec w) 6153) * 255 / 184)).
  { unfold gpd_read_pwm, the_quirk, bind, get. cbv beta iota zeta.
    rewrite Hq. cbn [board gpd_wm2_quirk]. rewrite Ht.
    rewrite (wm2_read_pwm_granted w Hq Hw Hi).
    cbn [pwm_write pwm_max gpd_wm2_quirk].
    assert (Hnn : 0 <= u8 (EC.peek (ec w) 6153) * 255 / 184)
      by (apply Z.div_pos; lia).
    destruct (Z.ltb_spec (u8 (EC.peek (ec w) 6153) * 255 / 184) 0); [lia |].
    reflexivity. }
  rewrite Hv. unfold u8 at 1. split; [reflexivity |].
  split; intros Hraw.
  - apply Z.mod_small. split; [apply Z.div_pos; lia |].
    apply Z.div_lt_upper_bound; lia.
  - assert (256 <= u8 (EC.peek (ec w) 6153) * 255 / 184)
      by (apply Z.div_le_lower_bound; lia).
    assert (u8 (EC.peek (ec w) 6153) * 255 / 184 < 512)
      by (apply Z.div_lt_upper_bound; lia).
    symmetry. apply Z.mod_unique with (q := 1); lia.
Qed.

Lemma wm2_read_pwm_wraps_witness :
  fst (gpd_read_pwm 1000 wm2_register_above_max) = 255 * 255 / 184 - 256.
Proof.
  assert (Hw : wired gpd_wm2_quirk wm2_register_above_max)
    by (repeat split; exact wm2_ports).
  apply (wm2_read_pwm_wraps 1000 wm2_register_above_max eq_refl Hw
           eq_refl eq_refl).
  vm_compute. reflexivity.
Defined.

(** ** Mode transitions *)

Lemma board_of_module_quirk q :
  In q gpd_module_quirks ->
  (board q = win_max_2 -> q = gpd_wm2_quirk) /\
  (board q <> win_max_2 ->
   manual_control_enable q = pwm_write q).
Proof.
  intros [<- | [<- | [<- | []]]]; split; intros H;
    try reflexivity; try discriminate H; now contradiction H.
Qed.

(** X10: on win-mini and win4, writing pwm1_enable with no wait
    interrupted succeeds and leaves in the PWM register: [pwm_max] for
    Disabled (0), the rescaled stored duty for Manual (1), and 0, outside
    the range 1..[pwm_max] of duties, for Automatic (2). *)
Theorem win_mini_set_mode_registers q v w :
  In q gpd_module_quirks -> quirk (priv w) = q -> board q <> win_max_2 ->
  wired q w -> quiet w -> is_u8 (pwm_value (priv w)) ->
  v = DISABLE \/ v = MANUAL \/ v = AUTOMATIC ->
  let r := gpd_fan_hwmon_write hwmon_pwm hwmon_pwm_enable v w in
  fst r = 0 /\
  EC.peek (ec (snd r)) (pwm_write q)
  = (if v =? DISABLE then pwm_max q
     else if v =? MANUAL
          then pwm_value (priv w) * (pwm_max q - 1) / 255 + 1
          else 0).
Proof.
  intros Hin Hq Hb Hw Hs Hv Hmode. cbv zeta.
  destruct (module_quirk_bounds q Hin) as (Hm & Hoff & _).
  rewrite hwmon_write_enable_valid
    by (destruct Hmode as [-> | [-> | ->]]; reflexivity).
  set (w0 := with_priv (set_pwm_enable v) w).
  assert (Hq0 : quirk (priv w0) = q) by exact Hq.
  assert (Hw0 : wired (quirk (priv w0)) w0) by (rewrite Hq0; exact Hw).
  assert (Hi0 : interrupted w0 = false) by (apply quiet_not_interrupted, Hs).
  assert (Hoff0 : is_u16 (pwm_write (quirk (priv w0)))) by now rewrite Hq0.
  assert (Hset : gpd_set_pwm_enable v w0 = gpd_win_mini_set_pwm_enable v w0).
  { unfold gpd_set_pwm_enable, the_quirk, bind, get. cbv beta iota zeta.
    rewrite Hq0. destruct (board q); try reflexivity. now contradiction Hb. }
  rewrite Hset. unfold gpd_win_mini_set_pwm_enable.
  destruct Hmode as [-> | [-> | ->]]; cbn [Z.eqb DISABLE MANUAL AUTOMATIC Pos.eqb].
  - rewrite (generic_write_pwm_granted 255 w0 Hw0 Hi0 Hoff0).
    rewrite Hq0, (raw_pwm_exact _ 255 Hm) by lia.
    cbn [fst snd]. split; [reflexivity |].
    rewrite peek_after_write_eq, Z.mul_comm, Z.div_mul by lia. lia.
  - unfold bind, get. cbv beta iota zeta.
    rewrite (generic_write_pwm_granted _ w0 Hw0 Hi0 Hoff0).
    rewrite Hq0. change (pwm_value (priv w0)) with (pwm_value (priv w)).
    rewrite (raw_pwm_exact _ _ Hm) by (unfold is_u8 in Hv; lia).
    cbn [fst snd]. split; [reflexivity |]. apply peek_after_write_eq.
  - unfold the_quirk, bind, get. cbv beta iota zeta.
    rewrite gpd_ecram_write_ok by assumption.
    rewrite Hq0. cbn [fst snd]. split; [reflexivity |].
    apply peek_after_write_eq.
Qed.

Lemma win_mini_set_mode_registers_witness :
  EC.peek
    (ec (snd (gpd_fan_hwmon_write hwmon_pwm hwmon_pwm_enable DISABLE
                stalled_win4))) 0xC311 = 127 /\
  EC.peek
    (ec (snd (gpd_fan_hwmon_write hwmon_pwm hwmon_pwm_enable AUTOMATIC
                win_mini_at_init))) 0x047A = 0.
Proof.
  split.
  - apply (win_mini_set_mode_registers gpd_win4_quirk DISABLE stalled_win4).
    + right; left; reflexivity.
    + reflexivity.
    + discriminate.
    + repeat split; exact win4_ports.
    + constructor.
    + unfold is_u8. cbn. lia.
    + left; reflexivity.
  - apply (win_mini_set_mode_registers gpd_win_mini_quirk AUTOMATIC
             win_mini_at_init).
    + left; reflexivity.
    + reflexivity.
    + discriminate.
    + apply wired_boot, win_mini_ports.
    + constructor.
    + unfold is_u8. cbn. lia.
    + right; right; reflexivity.
Defined.

(** X11: on win-max-2, writing pwm1_enable with no wait interrupted
    succeeds; Disabled (0) leaves [pwm_max] in the PWM register and 1 in the
    manual-control register, Manual (1) the rescaled stored duty and 1,
    Automatic (2) clears the manual-control register to 0 and leaves the PWM
    register as it was. *)
Theorem wm2_set_mode_registers v w :
  quirk (priv w) = gpd_wm2_quirk -> wired gpd_wm2_quirk w -> quiet w ->
  is_u8 (pwm_value (priv w)) ->
  v = DISABLE \/ v = MANUAL \/ v = AUTOMATIC ->
  let r := gpd_fan_hwmon_write hwmon_pwm hwmon_pwm_enable v w in
  let pwm := EC.peek (ec (snd r)) (pwm_write gpd_wm2_quirk) in
  let manual := EC.peek (ec (snd r)) (manual_control_enable gpd_wm2_quirk) in
  fst r = 0 /\
  (v = DISABLE -> pwm = pwm_max gpd_wm2_quirk /\ manual = 1) /\
  (v = MANUAL ->
   pwm = pwm_value (priv w) * (pwm_max gpd_wm2_quirk - 1) / 255 + 1 /\
   manual = 1) /\
  (v = AUTOMATIC ->
   pwm = EC.peek (ec w) (pwm_write gpd_wm2_quirk) /\ manual = 0).
Proof.
  intros Hq Hw Hs Hv Hmode. cbv zeta.
  rewrite hwmon_write_enable_valid
    by (destruct Hmode as [-> | [-> | ->]]; reflexivity).
  set (w0 := with_priv (set_pwm_enable v) w).
  assert (Hq0 : quirk (priv w0) = gpd_wm2_quirk) by exact Hq.
  assert (Hw0 : wired gpd_wm2_quirk w0) by exact Hw.
  assert (Hs0 : quiet w0) by exact Hs.
  assert (Hm : 1 <= pwm_max gpd_wm2_quirk <= 255) by (cbn; lia).
  unfold gpd_set_pwm_enable, gpd_wm2_set_pwm_enable, gpd_generic_write_pwm,
    the_quirk, bind, get.
  cbv beta iota zeta. rewrite Hq0. cbn [board gpd_wm2_quirk].
  cbv beta iota zeta. rewrite ?Hq0.
  change (pwm_value (priv w0)) with (pwm_value (priv w)).
  destruct Hmode as [-> | [-> | ->]];
    cbn [Z.eqb DISABLE MANUAL AUTOMATIC Pos.eqb];
    cbv beta iota zeta; rewrite ?Hq0;
    repeat (access_step; try change (negb (0 =? 0)) with false;
            cbv beta iota zeta);
    unfold ret; cbn [fst snd]; (split; [reflexivity |]);
    (split; [| split]); intros Hx; try discriminate Hx;
    peek_simpl; rewrite ?u8_idem;
    change (pwm_value (priv w0)) with (pwm_value (priv w));
    change (pwm_max gpd_wm2_quirk) with 184 in *;
    rewrite ?(raw_pwm_exact 184 _ Hm) by (unfold is_u8 in Hv; lia);
    split; reflexivity.
Qed.

Lemma wm2_set_mode_registers_witness :
  let r := gpd_fan_hwmon_write hwmon_pwm hwmon_pwm_enable AUTOMATIC
             wm2_at_init in
  EC.peek (ec (snd r)) 0x1809 = 92 /\ EC.peek (ec (snd r)) 0x0275 = 0.
Proof.
  apply (wm2_set_mode_registers AUTOMATIC wm2_at_init eq_refl
           (wired_boot 1000 gpd_wm2_quirk _ [] 5000 wm2_ports)
           ltac:(constructor)).
  - unfold is_u8. cbn. lia.
  - right; right; reflexivity.
  - reflexivity.
Defined.

(** ** Return values and bookkeeping of the callbacks *)

Lemma generic_write_pwm_result val :
  yields ok_or_eintr (gpd_generic_write_pwm val).
Proof.
  intros w. unfold gpd_generic_write_pwm, the_quirk, bind, get.
  cbv beta iota zeta. apply gpd_ecram_write_result.
Qed.

Lemma write_pwm_result val : yields ok_or_eintr (gpd_write_pwm val).
Proof.
  intros w.
  unfold gpd_write_pwm, gpd_win_mini_write_pwm, gpd_wm2_write_pwm,
    the_quirk, bind, get. cbv beta iota zeta.
  destruct (board (quirk (priv w)));
    try apply generic_write_pwm_result;
    match goal with |- context [if ?c then _ else _] => destruct c end;
    try apply generic_write_pwm_result; now right.
Qed.

Lemma two_writes_result (m k : M Z) :
  yields ok_or_eintr m -> yields ok_or_eintr k ->
  yields ok_or_eintr (bind m (fun r => if negb (r =? 0) then ret r else k)).
Proof.
  intros Hm Hk w. unfold bind. specialize (Hm w).
  destruct (m w) as [r w1]. cbn [fst] in Hm.
  destruct Hm as [-> | ->]; [now left | apply Hk].
Qed.

Lemma set_pwm_enable_result enable :
  yields ok_or_eintr (gpd_set_pwm_enable enable).
Proof.
  assert (Hmini : yields ok_or_eintr (gpd_win_mini_set_pwm_enable enable)).
  { intros w. unfold gpd_win_mini_set_pwm_enable.
    destruct (enable =? DISABLE); [apply generic_write_pwm_result |].
    destruct (enable =? MANUAL).
    { unfold bind, get. cbv beta iota zeta. apply generic_write_pwm_result. }
    destruct (enable =? AUTOMATIC); [| now right].
    unfold the_quirk, bind, get. cbv beta iota zeta.
    apply gpd_ecram_write_result. }
  assert (Hwm2 : yields ok_or_eintr (gpd_wm2_set_pwm_enable enable)).
  { intros w. unfold gpd_wm2_set_pwm_enable, the_quirk. unfold bind at 1.
    unfold get at 1. cbv beta iota zeta.
    destruct (enable =? DISABLE).
    { apply two_writes_result;
        [apply generic_write_pwm_result | apply gpd_ecram_write_result]. }
    destruct (enable =? MANUAL).
    { unfold bind at 1. unfold get. cbv beta iota zeta.
      apply two_writes_result;
        [apply generic_write_pwm_result | apply gpd_ecram_write_result]. }
    destruct (enable =? AUTOMATIC); [| now right].
    unfold bind.
    pose proof (gpd_ecram_write_result (quirk (priv w))
                  (manual_control_enable (quirk (priv w))) 0 w) as H.
    cbv beta in H.
    destruct (gpd_ecram_write (quirk (priv w))
                (manual_control_enable (quirk (priv w))) 0 w).
    exact H. }
  intros w. unfold gpd_set_pwm_enable, the_quirk. unfold bind at 1.
  unfold get. cbv beta iota zeta.
  destruct (board (quirk (priv w))); first [apply Hmini | apply Hwm2].
Qed.

Lemma gpd_fan_remove_eq w :
  gpd_fan_remove w
  = (0, snd (gpd_set_pwm_enable AUTOMATIC
               (with_priv (set_pwm_enable AUTOMATIC) w))).
Proof.
  unfold gpd_fan_remove, bind, modify_priv, ret.
  destruct (gpd_set_pwm_enable AUTOMATIC _). reflexivity.
Qed.

Lemma set_pwm_enable_automatic_granted q w :
  In q gpd_module_quirks -> quirk (priv w) = q -> wired q w ->
  interrupted w = false ->
  gpd_set_pwm_enable AUTOMATIC w
  = (0, after_write q (manual_control_enable q) 0 w).
Proof.
  intros Hin Hq0 Hw0 Hi0.
  destruct (module_quirk_bounds q Hin) as (_ & Hoff & _).
  destruct (board_of_module_quirk q Hin) as (Hwm2 & Hmini).
  unfold gpd_set_pwm_enable, gpd_win_mini_set_pwm_enable,
    gpd_wm2_set_pwm_enable, the_quirk, bind, get.
  cbv beta iota zeta. rewrite Hq0.
  destruct (board q) eqn:Hb; cbn [Z.eqb AUTOMATIC DISABLE MANUAL Pos.eqb];
    cbv beta iota zeta; rewrite ?Hq0.
  - rewrite Hmini by discriminate.
    rewrite gpd_ecram_write_ok by assumption. reflexivity.
  - rewrite Hmini by discriminate.
    rewrite gpd_ecram_write_ok by assumption. reflexivity.
  - rewrite (Hwm2 eq_refl) in *.
    rewrite gpd_ecram_write_ok
      by first [ assumption | unfold is_u16; cbn; lia ].
    reflexivity.
Qed.

(** X12: [gpd_fan_remove] returns 0 whatever happens to its EC write and
    leaves Automatic as the stored mode; when the write is not interrupted
    it hands the fan back to the EC: the manual-control register, which on
    win-mini and win4 is the PWM register, holds 0 afterwards. *)
Theorem remove_restores_automatic q w :
  quirk (priv w) = q ->
  let r := gpd_fan_remove w in
  fst r = 0 /\ pwm_enable (priv (snd r)) = AUTOMATIC /\
  (In q gpd_module_quirks -> wired q w -> interrupted w = false ->
   EC.peek (ec (snd r)) (manual_control_enable q) = 0).
Proof.
  intros Hq. cbv zeta. rewrite gpd_fan_remove_eq. cbn [fst snd].
  set (w0 := with_priv (set_pwm_enable AUTOMATIC) w).
  pose proof (framed_set_pwm_enable AUTOMATIC w0) as (Hp & _).
  split; [reflexivity |]. split; [now rewrite Hp |].
  intros Hin Hw Hi.
  rewrite (set_pwm_enable_automatic_granted q w0 Hin Hq Hw Hi).
  cbn [snd]. apply peek_after_write_eq.
Qed.

Lemma remove_restores_automatic_witness :
  fst (gpd_fan_remove wm2_first_wait_interrupted) = 0 /\
  pwm_enable (priv (snd (gpd_fan_remove wm2_first_wait_interrupted)))
  = AUTOMATIC /\
  EC.peek (ec (snd (gpd_fan_remove wm2_at_init))) 0x0275 = 0.
Proof.
  destruct (remove_restores_automatic gpd_wm2_quirk
              wm2_first_wait_interrupted eq_refl) as (H0 & Hm & _).
  destruct (remove_restores_automatic gpd_wm2_quirk wm2_at_init eq_refl)
    as (_ & _ & Hreg).
  split; [exact H0 |]. split; [exact Hm |].
  apply Hreg.
  - right; right; left; reflexivity.
  - apply wired_boot, wm2_ports.
  - reflexivity.
Defined.

Lemma read_rpm_keeps_control HZ w :
  let p' := priv (snd (gpd_read_rpm HZ w)) in
  quirk p' = quirk (priv w) /\ pwm_enable p' = pwm_enable (priv w) /\
  pwm_value p' = pwm_value (priv w) /\
  read_pwm_cached p' = read_pwm_cached (priv w) /\
  read_pwm_last_update p' = read_pwm_last_update (priv w).
Proof.
  cbv zeta.
  destruct (time_after (jiffies w)
              (ulong (fan_speed_last_update (priv w) + HZ))) eqn:Ht.
  - unfold gpd_read_rpm, the_quirk, bind, get, modify_priv, ret.
    cbv beta iota zeta. rewrite Ht. cbv beta iota zeta.
    destruct (uncached_rpm_dispatch (board (quirk (priv w)))) as (Hf & _).
    cbv zeta in Hf. specialize (Hf w).
    destruct (match board (quirk (priv w)) with
              | win_mini => gpd_generic_read_rpm_uncached
              | win4_6800u => gpd_win4_read_rpm_uncached
              | win_max_2 => gpd_wm2_read_rpm_uncached
              end w) as [r w1].
    destruct Hf as (Hp & _). cbn [snd] in Hp.
    destruct (r <? 0); cbn; rewrite Hp; repeat split.
  - rewrite (gpd_read_rpm_fresh HZ w Ht). repeat split.
Qed.

Lemma read_pwm_keeps_control HZ w :
  let p' := priv (snd (gpd_read_pwm HZ w)) in
  quirk p' = quirk (priv w) /\ pwm_enable p' = pwm_enable (priv w) /\
  pwm_value p' = pwm_value (priv w) /\
  fan_speed_cached p' = fan_speed_cached (priv w) /\
  fan_speed_last_update p' = fan_speed_last_update (priv w).
Proof.
  cbv zeta.
  unfold gpd_read_pwm, the_quirk, bind, get, modify_priv, ret.
  cbv beta iota zeta.
  destruct (board (quirk (priv w))); try (repeat split; fail).
  destruct (time_after _ _); cbv beta iota zeta; [| repeat split].
  pose proof (framed_wm2_read_pwm w) as (Hp & _).
  destruct (gpd_wm2_read_pwm_uncached w) as [r w1]. cbn [snd] in Hp.
  destruct (r <? 0); cbn; rewrite Hp; repeat split.
Qed.

(** X13: what the callbacks leave alone in the private data.  A read
    never changes the board profile, the stored mode or the stored duty; a
    write never changes the board profile or the caches and their time
    stamps, changes the stored mode only when it is a write of pwm1_enable
    and the stored duty only when it is a write of pwm1. *)
Theorem callbacks_bookkeeping HZ type attr val w :
  let rd := priv (snd (gpd_fan_hwmon_read HZ type attr val w)) in
  let wr := priv (snd (gpd_fan_hwmon_write type attr val w)) in
  (quirk rd = quirk (priv w) /\ pwm_enable rd = pwm_enable (priv w) /\
   pwm_value rd = pwm_value (priv w)) /\
  (quirk wr = quirk (priv w) /\
   fan_speed_cached wr = fan_speed_cached (priv w) /\
   fan_speed_last_update wr = fan_speed_last_update (priv w) /\
   read_pwm_cached wr = read_pwm_cached (priv w) /\
   read_pwm_last_update wr = read_pwm_last_update (priv w)) /\
  (~ (type = hwmon_pwm /\ attr = hwmon_pwm_enable) ->
   pwm_enable wr = pwm_enable (priv w)) /\
  (~ (type = hwmon_pwm /\ attr = hwmon_pwm_input) ->
   pwm_value wr = pwm_value (priv w)).
Proof.
  cbv zeta. split; [| split; [| split]].
  - unfold gpd_fan_hwmon_read, bind, get, ret.
    destruct type; try (repeat split; fail).
    + destruct (attr =? hwmon_fan_input); [| repeat split].
      destruct (read_rpm_keeps_control HZ w) as (H1 & H2 & H3 & _).
      destruct (gpd_read_rpm HZ w) as [r w1]. cbn [snd] in *.
      destruct (r <? 0); cbn; auto.
    + destruct (attr =? hwmon_pwm_enable); [repeat split |].
      destruct (attr =? hwmon_pwm_input); [| repeat split].
      destruct (read_pwm_keeps_control HZ w) as (H1 & H2 & H3 & _).
      destruct (gpd_read_pwm HZ w) as [r w1]. cbn [snd] in *.
      destruct (r <? 0); cbn; auto.
  - unfold gpd_fan_hwmon_write, bind, get, ret, modify_priv.
    destruct type; try (repeat split; fail).
    destruct (attr =? hwmon_pwm_enable).
    { destruct (negb (in_range val 0 3)); [repeat split |].
      cbv beta iota zeta.
      pose proof (framed_set_pwm_enable
                    (pwm_enable (priv (with_priv (set_pwm_enable val) w)))
                    (with_priv (set_pwm_enable val) w)) as (Hp & _).
      rewrite Hp. repeat split. }
    destruct (attr =? hwmon_pwm_input); [| repeat split].
    cbv beta iota zeta.
    pose proof (framed_write_pwm (u8 (clamp_val val 0 255))
                  (with_priv (set_pwm_value (u8 (clamp_val val 0 255))) w))
      as (Hp & _).
    rewrite Hp. repeat split.
  - intros Hne. unfold gpd_fan_hwmon_write, bind, get, ret, modify_priv.
    destruct type; try reflexivity.
    destruct (Z.eqb_spec attr hwmon_pwm_enable) as [-> | _];
      [now contradiction Hne |].
    destruct (attr =? hwmon_pwm_input); [| reflexivity].
    cbv beta iota zeta.
    pose proof (framed_write_pwm (u8 (clamp_val val 0 255))
                  (with_priv (set_pwm_value (u8 (clamp_val val 0 255))) w))
      as (Hp & _).
    rewrite Hp. reflexivity.
  - intros Hne. unfold gpd_fan_hwmon_write, bind, get, ret, modify_priv.
    destruct type; try reflexivity.
    destruct (attr =? hwmon_pwm_enable).
    { destruct (negb (in_range val 0 3)); [reflexivity |].
      cbv beta iota zeta.
      pose proof (framed_set_pwm_enable
                    (pwm_enable (priv (with_priv (set_pwm_enable val) w)))
                    (with_priv (set_pwm_enable val) w)) as (Hp & _).
      rewrite Hp. reflexivity. }
    destruct (Z.eqb_spec attr hwmon_pwm_input) as [-> | _];
      [now contradiction Hne | reflexivity].
Qed.

Lemma callbacks_bookkeeping_witness :
  pwm_enable
    (priv (snd (gpd_fan_hwmon_write hwmon_pwm hwmon_pwm_input 10
                  win_mini_at_init))) = AUTOMATIC /\
  pwm_value
    (priv (snd (gpd_fan_hwmon_write hwmon_pwm hwmon_pwm_enable MANUAL
                  win_mini_at_init))) = 255.
Proof.
  destruct (callbacks_bookkeeping 1000 hwmon_pwm hwmon_pwm_input 10
              win_mini_at_init) as (_ & _ & Hmode & _).
  destruct (callbacks_bookkeeping 1000 hwmon_pwm hwmon_pwm_enable MANUAL
              win_mini_at_init) as (_ & _ & _ & Hduty).
  split.
  - apply Hmode. intros (_ & H). discriminate H.
  - apply Hduty. intros (_ & H). discriminate H.
Defined.

Lemma wm2_read_pwm_result w :
  quirk (priv w) = gpd_wm2_quirk ->
  fst (gpd_wm2_read_pwm_uncached w) = - EINTR \/
  0 <= fst (gpd_wm2_read_pwm_uncached w).
Proof.
  intros Hq. unfold gpd_wm2_read_pwm_uncached, the_quirk, bind, get.
  cbv beta iota zeta. rewrite Hq.
  pose proof (gpd_ecram_read_result gpd_wm2_quirk
                (pwm_write gpd_wm2_quirk) 0 w) as H.
  destruct (gpd_ecram_read gpd_wm2_quirk (pwm_write gpd_wm2_quirk) 0 w)
    as [[r var] w1].
  cbn [fst] in H. destruct H as [[-> _] | [-> Hvar]].
  - left. reflexivity.
  - right. cbn [Z.ltb Z.compare ret fst pwm_max gpd_wm2_quirk].
    unfold is_u8 in Hvar. rewrite Z.quot_div_nonneg by lia.
    assert (0 <= var * 255 / 184) by (apply Z.div_pos; lia).
    assert (var * 255 / 184 < 2 ^ 15) by (apply Z.div_lt_upper_bound; lia).
    rewrite s16_small; lia.
Qed.

Lemma gpd_read_pwm_result HZ w :
  In (quirk (priv w)) gpd_module_quirks ->
  is_u8 (pwm_value (priv w)) -> is_u8 (read_pwm_cached (priv w)) ->
  fst (gpd_read_pwm HZ w) = - EINTR \/ 0 <= fst (gpd_read_pwm HZ w).
Proof.
  intros Hin Hv Hc. unfold is_u8 in *.
  destruct (board_of_module_quirk _ Hin) as (Hwm2 & _).
  unfold gpd_read_pwm, the_quirk, bind, get, modify_priv, ret.
  cbv beta iota zeta.
  destruct (board (quirk (priv w))); cbn [fst]; try (right; lia).
  destruct (time_after _ _); cbv beta iota zeta; cbn [fst]; [| right; lia].
  pose proof (wm2_read_pwm_result w (Hwm2 eq_refl)) as Hr.
  destruct (gpd_wm2_read_pwm_uncached w) as [r w1]. cbn [fst] in Hr.
  destruct (Z.ltb_spec r 0); cbn; [lia |].
  right. pose proof (u8_range r) as Hu. unfold is_u8 in Hu. lia.
Qed.

(** X14: the three callbacks agree on what is supported.  A channel
    attribute that [gpd_fan_hwmon_is_visible] hides (mode 0) is exactly one
    whose read answers [-EOPNOTSUPP]; one it shows without a write
    permission bit (0222) is exactly one whose write answers [-EOPNOTSUPP];
    and an unsupported read or write leaves the world, and for a read the
    output argument, untouched. *)
Theorem visibility_matches_support HZ type attr val w :
  In (quirk (priv w)) gpd_module_quirks ->
  is_u8 (pwm_value (priv w)) -> is_u8 (read_pwm_cached (priv w)) ->
  is_u16 (fan_speed_cached (priv w)) ->
  let rd := gpd_fan_hwmon_read HZ type attr val w in
  let wr := gpd_fan_hwmon_write type attr val w in
  (gpd_fan_hwmon_is_visible type attr = 0 <-> fst (fst rd) = - EOPNOTSUPP) /\
  (Z.land (gpd_fan_hwmon_is_visible type attr) 146 = 0
   <-> fst wr = - EOPNOTSUPP) /\
  (fst (fst rd) = - EOPNOTSUPP -> rd = ((- EOPNOTSUPP, val), w)) /\
  (fst wr = - EOPNOTSUPP -> wr = (- EOPNOTSUPP, w)).
Proof.
  intros Hin Hv Hc Hs. cbv zeta.
  pose proof (gpd_read_rpm_result HZ w Hs) as (Hrpm & _).
  pose proof (gpd_read_pwm_result HZ w Hin Hv Hc) as Hpwm.
  assert (Hwr : fst (gpd_fan_hwmon_write hwmon_pwm attr val w) = - EOPNOTSUPP
                -> attr <> hwmon_pwm_enable /\ attr <> hwmon_pwm_input).
  { unfold gpd_fan_hwmon_write, bind, get, modify_priv.
    destruct (Z.eqb_spec attr hwmon_pwm_enable) as [-> | Hne1].
    - destruct (negb (in_range val 0 3)); [intros H; discriminate H |].
      cbv beta iota zeta. intros H.
      pose proof (set_pwm_enable_result
                    (pwm_enable (priv (with_priv (set_pwm_enable val) w)))
                    (with_priv (set_pwm_enable val) w)) as Hr.
      cbv beta in Hr. rewrite H in Hr.
      destruct Hr as [Hr | Hr]; discriminate Hr.
    - destruct (Z.eqb_spec attr hwmon_pwm_input) as [-> | Hne2];
        [| now split].
      cbv beta iota zeta. intros H.
      pose proof (write_pwm_result (u8 (clamp_val val 0 255))
                    (with_priv (set_pwm_value (u8 (clamp_val val 0 255))) w))
        as Hr.
      cbv beta in Hr. rewrite H in Hr.
      destruct Hr as [Hr | Hr]; discriminate Hr. }
  assert (Hrd_pwm :
            fst (fst (gpd_fan_hwmon_read HZ hwmon_pwm attr val w))
            = - EOPNOTSUPP
            -> attr <> hwmon_pwm_enable /\ attr <> hwmon_pwm_input).
  { unfold gpd_fan_hwmon_read, bind, get, ret.
    destruct (Z.eqb_spec attr hwmon_pwm_enable) as [-> | Hne1];
      [intros H; discriminate H |].
    destruct (Z.eqb_spec attr hwmon_pwm_input) as [-> | Hne2]; [| now split].
    destruct (gpd_read_pwm HZ w) as [r w1]. cbn [fst] in Hpwm.
    unfold EINTR, EOPNOTSUPP in *.
    destruct (Z.ltb_spec r 0) as [Hlt | Hge]; cbn [fst]; intros Hx; lia. }
  assert (Hrd_fan :
            fst (fst (gpd_fan_hwmon_read HZ hwmon_fan attr val w))
            = - EOPNOTSUPP -> attr <> hwmon_fan_input).
  { unfold gpd_fan_hwmon_read, bind, get, ret.
    destruct (Z.eqb_spec attr hwmon_fan_input) as [-> | Hne1]; [| easy].
    destruct (gpd_read_rpm HZ w) as [r w1]. cbn [fst] in Hrpm.
    unfold rpm_result, EINTR, EOPNOTSUPP in *.
    destruct (Z.ltb_spec r 0) as [Hlt | Hge]; cbn [fst]; intros Hx; lia. }
  destruct type;
    try (cbn; repeat split; intros; reflexivity).
  - (* hwmon_fan *)
    destruct (Z.eqb_spec attr hwmon_fan_input) as [-> | Hne].
    + repeat split; try (intros H; discriminate H); try reflexivity;
        intros H; now apply Hrd_fan in H.
    + unfold gpd_fan_hwmon_is_visible, gpd_fan_hwmon_read,
        gpd_fan_hwmon_write, ret.
      rewrite (proj2 (Z.eqb_neq _ _) Hne). repeat split.
  - (* hwmon_pwm *)
    destruct (Z.eqb_spec attr hwmon_pwm_enable) as [-> | Hne1];
      [| destruct (Z.eqb_spec attr hwmon_pwm_input) as [-> | Hne2]].
    + repeat split; try (intros H; discriminate H);
        intros H; first [ apply Hrd_pwm in H | apply Hwr in H ];
        destruct H as (H1 & H2); now contradiction H1.
    + repeat split; try (intros H; discriminate H);
        intros H; first [ apply Hrd_pwm in H | apply Hwr in H ];
        destruct H as (H1 & H2); now contradiction H2.
    + unfold gpd_fan_hwmon_is_visible, gpd_fan_hwmon_read,
        gpd_fan_hwmon_write, ret.
      rewrite (proj2 (Z.eqb_neq _ _) Hne1), (proj2 (Z.eqb_neq _ _) Hne2).
      repeat split.
Qed.

Lemma visibility_matches_support_witness :
  gpd_fan_hwmon_is_visible hwmon_fan hwmon_fan_input <> 0 /\
  fst (gpd_fan_hwmon_write hwmon_fan hwmon_fan_input 0 win_mini_at_init)
  = - EOPNOTSUPP /\
  gpd_fan_hwmon_read 1000 hwmon_temp 0 7 win_mini_at_init
  = ((- EOPNOTSUPP, 7), win_mini_at_init).
Proof.
  assert (Hin : In (quirk (priv win_mini_at_init)) gpd_module_quirks)
    by (left; reflexivity).
  assert (H8 : is_u8 255) by (unfold is_u8; lia).
  assert (H0 : is_u8 0) by (unfold is_u8; lia).
  assert (H16 : is_u16 0) by (unfold is_u16; lia).
  destruct (visibility_matches_support 1000 hwmon_fan hwmon_fan_input 0
              win_mini_at_init Hin H8 H0 H16) as (_ & Hw & _ & _).
  destruct (visibility_matches_support 1000 hwmon_temp 0 7
              win_mini_at_init Hin H8 H0 H16) as (Hv & _ & Hr & _).
  split; [intros H; discriminate H |]. split.
  - apply Hw. reflexivity.
  - apply Hr, Hv. reflexivity.
Defined.

(** ** Duties written through pwm1 *)

Lemma pwm_input_write_granted q val w :
  In q gpd_module_quirks -> quirk (priv w) = q -> wired q w ->
  interrupted w = false ->
  spec_pwm_write_gate (board q) (pwm_enable (priv w)) = true ->
  gpd_fan_hwmon_write hwmon_pwm hwmon_pwm_input val w
  = (0, after_write q (pwm_write q)
          (clamp_val val 0 255 * (pwm_max q - 1) / 255 + 1)
          (with_priv (set_pwm_value (clamp_val val 0 255)) w)).
Proof.
  intros Hin Hq Hw Hi Hgate.
  destruct (module_quirk_bounds q Hin) as (Hm & Hoff & _).
  pose proof (clamp_val_duty val) as Hc.
  set (duty := clamp_val val 0 255) in *.
  set (w0 := with_priv (set_pwm_value duty) w).
  assert (Hq0 : quirk (priv w0) = q) by exact Hq.
  assert (Hwrite : gpd_fan_hwmon_write hwmon_pwm hwmon_pwm_input val w
                   = gpd_generic_write_pwm duty w0).
  { unfold gpd_fan_hwmon_write. cbn [Z.eqb hwmon_pwm_enable hwmon_pwm_input].
    fold duty. rewrite (u8_small duty Hc).
    unfold bind at 1. unfold modify_priv. cbv beta iota zeta. fold w0.
    unfold gpd_write_pwm, gpd_win_mini_write_pwm, gpd_wm2_write_pwm,
      the_quirk, bind, get. cbv beta iota zeta. rewrite Hq0.
    unfold spec_pwm_write_gate in Hgate.
    destruct (board q); cbv beta iota zeta;
      change (pwm_enable (priv w0)) with (pwm_enable (priv w));
      rewrite ?Hgate; reflexivity. }
  rewrite Hwrite.
  rewrite generic_write_pwm_granted; rewrite ?Hq0; try assumption.
  unfold is_u8 in Hc.
  rewrite (raw_pwm_exact _ duty Hm) by lia. reflexivity.
Qed.

(** X15: on every board profile, whatever [long] is written to pwm1, when
    the board's gate lets the write through and the wait is not
    interrupted the PWM register ends up holding the rescaled clamped duty,
    a value between 1 and [pwm_max]: a negative input gives 1, an input
    above 255 gives [pwm_max], and 0, the automatic-control value, is never
    written. *)
Theorem pwm_write_stays_in_raw_range q val w :
  In q gpd_module_quirks -> quirk (priv w) = q -> wired q w ->
  interrupted w = false ->
  spec_pwm_write_gate (board q) (pwm_enable (priv w)) = true ->
  let r := gpd_fan_hwmon_write hwmon_pwm hwmon_pwm_input val w in
  let raw := EC.peek (ec (snd r)) (pwm_write q) in
  fst r = 0 /\
  pwm_value (priv (snd r)) = clamp_val val 0 255 /\
  raw = clamp_val val 0 255 * (pwm_max q - 1) / 255 + 1 /\
  1 <= raw <= pwm_max q /\
  (val <= 0 -> raw = 1) /\ (255 <= val -> raw = pwm_max q).
Proof.
  intros Hin Hq Hw Hi Hgate. cbv zeta.
  destruct (module_quirk_bounds q Hin) as (Hm & _).
  rewrite (pwm_input_write_granted q val w Hin Hq Hw Hi Hgate).
  pose proof (clamp_val_duty val) as Hc. unfold is_u8 in Hc.
  set (duty := clamp_val val 0 255) in *.
  cbn [fst snd]. rewrite peek_after_write_eq.
  assert (H0 : 0 <= duty * (pwm_max q - 1) / 255) by (apply Z.div_pos; nia).
  assert (H1 : duty * (pwm_max q - 1) / 255 <= pwm_max q - 1)
    by (apply Z.div_le_upper_bound; nia).
  repeat split; try lia.
  - intros Hv. replace duty with 0 by (unfold duty, clamp_val; lia).
    reflexivity.
  - intros Hv. replace duty with 255 by (unfold duty, clamp_val; lia).
    rewrite Z.mul_comm, Z.div_mul by lia. lia.
Qed.

Lemma pwm_write_stays_in_raw_range_witness :
  let r := gpd_fan_hwmon_write hwmon_pwm hwmon_pwm_input (-5) stalled_win4 in
  fst r = 0 /\ pwm_value (priv (snd r)) = 0 /\
  EC.peek (ec (snd r)) 0xC311 = 1.
Proof.
  assert (Hin : In gpd_win4_quirk gpd_module_quirks)
    by (right; left; reflexivity).
  assert (Hw : wired gpd_win4_quirk stalled_win4)
    by (repeat split; exact win4_ports).
  destruct (pwm_write_stays_in_raw_range gpd_win4_quirk (-5) stalled_win4
              Hin eq_refl Hw eq_refl eq_refl)
    as (H0 & Hv & _ & _ & Hneg & _).
  split; [exact H0 |]. split; [exact Hv |]. apply Hneg. lia.
Defined.

(** X16: on win4 the Automatic mode does not survive a write of pwm1.
    Setting pwm1_enable to Automatic leaves 0 in the PWM register; a later
    write of pwm1, with no wait interrupted, puts a duty between 1 and
    [pwm_max] there although the stored mode still reads Automatic. *)
Theorem win4_pwm_write_overrides_automatic val w :
  quirk (priv w) = gpd_win4_quirk -> wired gpd_win4_quirk w -> quiet w ->
  let w1 := snd (gpd_fan_hwmon_write hwmon_pwm hwmon_pwm_enable AUTOMATIC w) in
  let w2 := snd (gpd_fan_hwmon_write hwmon_pwm hwmon_pwm_input val w1) in
  EC.peek (ec w1) (pwm_write gpd_win4_quirk) = 0 /\
  pwm_enable (priv w2) = AUTOMATIC /\
  1 <= EC.peek (ec w2) (pwm_write gpd_win4_quirk) <= pwm_max gpd_win4_quirk.
Proof.
  intros Hq Hw Hs. cbv zeta.
  assert (Hin : In gpd_win4_quirk gpd_module_quirks)
    by (right; left; reflexivity).
  rewrite hwmon_write_enable_valid by reflexivity.
  rewrite (set_pwm_enable_automatic_granted gpd_win4_quirk
             (with_priv (set_pwm_enable AUTOMATIC) w) Hin Hq Hw
             (quiet_not_interrupted _ Hs)).
  cbn [snd].
  set (w1 := after_write gpd_win4_quirk _ 0 _).
  assert (Hi1 : interrupted w1 = false)
    by (apply quiet_not_interrupted, quiet_after_write, Hs).
  rewrite (pwm_input_write_granted gpd_win4_quirk val w1 Hin Hq Hw Hi1 eq_refl).
  cbn [snd]. rewrite peek_after_write_eq.
  split; [apply peek_after_write_eq |]. split; [reflexivity |].
  pose proof (clamp_val_duty val) as Hc. unfold is_u8 in Hc.
  cbn [pwm_max gpd_win4_quirk].
  assert (0 <= clamp_val val 0 255 * (127 - 1) / 255)
    by (apply Z.div_pos; lia).
  assert (clamp_val val 0 255 * (127 - 1) / 255 <= 126)
    by (apply Z.div_le_upper_bound; lia).
  lia.
Qed.

Lemma win4_pwm_write_overrides_automatic_witness :
  let w1 := snd (gpd_fan_hwmon_write hwmon_pwm hwmon_pwm_enable AUTOMATIC
                   stalled_win4) in
  let w2 := snd (gpd_fan_hwmon_write hwmon_pwm hwmon_pwm_input 0 w1) in
  EC.peek (ec w1) 0xC311 = 0 /\ pwm_enable (priv w2) = AUTOMATIC /\
  1 <= EC.peek (ec w2) 0xC311 <= 127.
Proof.
  assert (Hw : wired gpd_win4_quirk stalled_win4)
    by (repeat split; exact win4_ports).
  apply (win4_pwm_write_overrides_automatic 0 stalled_win4 eq_refl Hw).
  constructor.
Defined.

(** ** Refreshing reads

    What a read past the interval does to the EC when no wait on the lock is
    interrupted: the model-specific RPM reads are split at their call of
    [gpd_generic_read_rpm_uncached], the fixup before it leaves the RPM
    registers alone, and what follows it only extends the log. *)

Lemma framed_win4_fixup : framed win4_fixup.
Proof. unfold win4_fixup, the_quirk. drv_framed. Qed.

Lemma framed_wm2_fixup : framed wm2_fixup.
Proof.
  unfold wm2_fixup, the_quirk.
  apply framed_bind; [apply framed_get | intros q].
  apply framed_for_u16. intros i. drv_framed.
Qed.

Lemma framed_win4_after_read q r : framed (win4_after_read q r).
Proof. unfold win4_after_read. drv_framed. Qed.

Lemma win4_after_read_fst q r w : fst (win4_after_read q r w) = r.
Proof.
  unfold win4_after_read. destruct (r <? 0); [reflexivity |].
  unfold bind at 1.
  match goal with
  | |- fst (let (_, _) := ?X in _) = _ => destruct X; reflexivity
  end.
Qed.

Lemma win4_read_rpm_split w :
  gpd_win4_read_rpm_uncached w
  = bind gpd_generic_read_rpm_uncached (win4_after_read (quirk (priv w)))
      (snd (win4_fixup w)).
Proof.
  unfold gpd_win4_read_rpm_uncached, win4_fixup, win4_after_read, the_quirk,
    bind, get.
  cbv beta iota zeta.
  destruct (gpd_ecram_read (quirk (priv w)) 6209 (u8 (PWMCTR0 (stack w))) w)
    as [[r PWMCTR] w1].
  destruct (negb (PWMCTR =? 127)); [| reflexivity].
  destruct (gpd_ecram_write (quirk (priv w)) 6209 127 w1) as [r' w2].
  reflexivity.
Qed.

Lemma then_generic_read_eq {A} (f : gpd_board_quirk -> M A) (g : M Z) w :
  bind the_quirk (fun q => bind (f q) (fun _ => g)) w
  = g (snd (bind the_quirk f w)).
Proof.
  unfold the_quirk, bind, get. cbv beta iota zeta.
  destruct (f (quirk (priv w)) w). reflexivity.
Qed.

Lemma wm2_read_rpm_split w :
  gpd_wm2_read_rpm_uncached w
  = gpd_generic_read_rpm_uncached (snd (wm2_fixup w)).
Proof.
  exact (then_generic_read_eq
           (fun q =>
              for_u16 4 0x1841 0x1843 (fun pwm_ctr_offset =>
                do PWMCTR <- get (fun w => u8 (PWMCTR0 (stack w)));
                do '(_, PWMCTR) <- gpd_ecram_read q pwm_ctr_offset PWMCTR;
                if negb (PWMCTR =? 0xB8)
                then (do _ <- gpd_ecram_write q pwm_ctr_offset 0xB8; ret tt)
                else ret tt))
           gpd_generic_read_rpm_uncached w).
Qed.

Lemma win4_fixup_quiet w :
  quirk (priv w) = gpd_win4_quirk -> wired gpd_win4_quirk w -> quiet w ->
  let w1 := snd (win4_fixup w) in
  wired gpd_win4_quirk w1 /\ quiet w1 /\
  (forall o, o <> 0x1841 -> EC.peek (ec w1) o = EC.peek (ec w) o).
Proof.
  intros Hq Hw Hs. cbv zeta.
  unfold win4_fixup, the_quirk, bind, get.
  cbv beta iota zeta. rewrite Hq.
  quiet_eval gpd_win4_quirk; cbn [snd];
    (split; [access_side |]); (split; [quiet_side |]);
    intros o Ho; peek_simpl; reflexivity.
Qed.

Lemma wm2_fixup_quiet w :
  quirk (priv w) = gpd_wm2_quirk -> wired gpd_wm2_quirk w -> quiet w ->
  let w1 := snd (wm2_fixup w) in
  wired gpd_wm2_quirk w1 /\ quiet w1 /\
  (forall o, ~ 0x1841 <= o <= 0x1843 -> EC.peek (ec w1) o = EC.peek (ec w) o).
Proof.
  intros Hq Hw Hs. cbv zeta.
  generalize (eq_refl (wm2_fixup w)).
  generalize (wm2_fixup w) at 2 3 4 5.
  intros r.
  unfold wm2_fixup, the_quirk. unfold bind at 1. unfold get.
  cbv beta iota zeta. rewrite Hq, for_u16_wm2.
  unfold bind, get. cbv beta iota zeta.
  quiet_eval gpd_wm2_quirk; intros <-; cbn [snd];
    (split; [access_side |]); (split; [quiet_side |]);
    intros o Ho; peek_simpl; reflexivity.
Qed.

(** The generic RPM read in a world [w1] reached from [w] with the RPM
    registers as they were. *)
Lemma generic_read_rpm_after q w w1 :
  quirk (priv w) = q -> 0 <= rpm_read q < 2 ^ 16 - 1 ->
  frame w w1 -> wired q w1 -> quiet w1 ->
  EC.peek (ec w1) (rpm_read q) = EC.peek (ec w) (rpm_read q) ->
  EC.peek (ec w1) (rpm_read q + 1) = EC.peek (ec w) (rpm_read q + 1) ->
  let g := gpd_generic_read_rpm_uncached w1 in
  fst g = rpm_in_ram q (ec w) /\
  exists t1,
    io_log (snd g)
    = io_log w ++ t1
      ++ read_txn q (rpm_read q) (u8 (EC.peek (ec w) (rpm_read q)))
      ++ read_txn q (rpm_read q + 1) (u8 (EC.peek (ec w) (rpm_read q + 1))).
Proof.
  intros Hq Hoff (Hp & _ & _ & t & Ht) Hw Hs H1 H2. cbv zeta.
  rewrite (generic_read_rpm_quiet q w1) by (try assumption; congruence).
  cbn [fst snd]. split.
  - unfold rpm_in_ram. now rewrite H1, H2.
  - exists t. cbn [io_log after_read]. rewrite peek_after_read, H1, H2, Ht.
    now rewrite <- !app_assoc.
Qed.

Lemma uncached_rpm_quiet q w :
  In q gpd_module_quirks -> quirk (priv w) = q -> wired q w -> quiet w ->
  let r := match board q with
           | win_mini => gpd_generic_read_rpm_uncached
           | win4_6800u => gpd_win4_read_rpm_uncached
           | win_max_2 => gpd_wm2_read_rpm_uncached
           end w in
  fst r = rpm_in_ram q (ec w) /\
  exists t1 t2,
    io_log (snd r)
    = io_log w ++ t1
      ++ read_txn q (rpm_read q) (u8 (EC.peek (ec w) (rpm_read q)))
      ++ read_txn q (rpm_read q + 1) (u8 (EC.peek (ec w) (rpm_read q + 1)))
      ++ t2.
Proof.
  intros Hin Hq Hw Hs. cbv zeta.
  destruct (module_quirk_bounds q Hin) as (_ & _ & Hoff & _).
  destruct Hin as [<- | [<- | [<- | []]]]; cbn [board gpd_win_mini_quirk
    gpd_win4_quirk gpd_wm2_quirk].
  - destruct (generic_read_rpm_after gpd_win_mini_quirk w w Hq Hoff
                (frame_refl w) Hw Hs eq_refl eq_refl) as (Hv & t1 & Hl).
    split; [exact Hv |]. exists t1, []. rewrite Hl.
    now rewrite app_nil_r.
  - destruct (win4_fixup_quiet w Hq Hw Hs) as (Hw1 & Hs1 & Hpk).
    destruct (generic_read_rpm_after gpd_win4_quirk w (snd (win4_fixup w))
                Hq Hoff (framed_win4_fixup w) Hw1 Hs1
                (Hpk (rpm_read gpd_win4_quirk) ltac:(cbn; lia))
                (Hpk (rpm_read gpd_win4_quirk + 1) ltac:(cbn; lia)))
      as (Hv & t1 & Hl).
    rewrite win4_read_rpm_split. unfold bind.
    destruct (gpd_generic_read_rpm_uncached (snd (win4_fixup w))) as [r0 w3].
    cbn [fst snd] in Hv, Hl.
    rewrite win4_after_read_fst. split; [exact Hv |].
    destruct (framed_win4_after_read (quirk (priv w)) r0 w3)
      as (_ & _ & _ & t2 & Ht2).
    exists t1, t2. rewrite Ht2, Hl. now rewrite <- !app_assoc.
  - destruct (wm2_fixup_quiet w Hq Hw Hs) as (Hw1 & Hs1 & Hpk).
    destruct (generic_read_rpm_after gpd_wm2_quirk w (snd (wm2_fixup w))
                Hq Hoff (framed_wm2_fixup w) Hw1 Hs1
                (Hpk (rpm_read gpd_wm2_quirk) ltac:(cbn; lia))
                (Hpk (rpm_read gpd_wm2_quirk + 1) ltac:(cbn; lia)))
      as (Hv & t1 & Hl).
    rewrite wm2_read_rpm_split.
    split; [exact Hv |]. exists t1, []. rewrite Hl.
    now rewrite app_nil_r.
Qed.

Lemma gpd_read_rpm_refresh_quiet HZ q w :
  In q gpd_module_quirks -> quirk (priv w) = q -> wired q w -> quiet w ->
  time_after (jiffies w) (ulong (fan_speed_last_update (priv w) + HZ)) = true ->
  let r := gpd_read_rpm HZ w in
  fst r = rpm_in_ram q (ec w) /\
  fan_speed_cached (priv (snd r)) = rpm_in_ram q (ec w) /\
  fan_speed_last_update (priv (snd r)) = jiffies w /\
  exists t1 t2,
    io_log (snd r)
    = io_log w ++ t1
      ++ read_txn q (rpm_read q) (u8 (EC.peek (ec w) (rpm_read q)))
      ++ read_txn q (rpm_read q + 1) (u8 (EC.peek (ec w) (rpm_read q + 1)))
      ++ t2.
Proof.
  intros Hin Hq Hw Hs Ht. cbv zeta.
  destruct (uncached_rpm_quiet q w Hin Hq Hw Hs) as (Hv & t1 & t2 & Hl).
  pose proof (rpm_in_ram_range q (ec w)) as Hr.
  unfold gpd_read_rpm, the_quirk, bind, get.
  rewrite Ht. cbv beta iota zeta. rewrite Hq.
  destruct (match board q with
            | win_mini => gpd_generic_read_rpm_uncached
            | win4_6800u => gpd_win4_read_rpm_uncached
            | win_max_2 => gpd_wm2_read_rpm_uncached
            end w) as [r w1].
  cbn [fst snd] in Hv, Hl. subst r.
  destruct (Z.ltb_spec (rpm_in_ram q (ec w)) 0) as [Hneg | Hpos]; [lia |].
  cbn. rewrite u16_small by (unfold is_u16; lia).
  split; [reflexivity |]. split; [reflexivity |]. split; [reflexivity |].
  exists t1, t2. exact Hl.
Qed.




(** ** Module load *)

Lemma match_module_quirk_spec name l :
  match match_module_quirk name l with
  | Some q => In q l /\ board_name q = name
  | None => forall q, In q l -> board_name q <> name
  end.
Proof.
  induction l as [| q0 l IH]; cbn [match_module_quirk].
  - intros q [].
  - destruct (String.eqb_spec name (board_name q0)) as [E | N].
    + split; [now left | now symmetry].
    + destruct (match_module_quirk name l) as [q |].
      * destruct IH as (Hin & Hn). split; [now right | exact Hn].
      * intros q [<- | Hin]; [congruence | now apply IH].
Qed.

(** X17: board selection in [gpd_fan_init].  A module parameter equal to
    the name of a board profile selects that profile whatever the DMI
    lookup says, and the private data starts from it.  With any other
    parameter the DMI lookup decides: the profile of the matching entry is
    used; [-ENODEV] is returned only for a matching entry without driver
    data; and when no entry matches, the null pointer returned by the
    lookup is dereferenced before the [-ENODEV] test is reached. *)
Theorem init_board_selection HZ name dmi now :
  (forall q, In q gpd_module_quirks -> board_name q = name ->
     gpd_fan_init HZ name dmi now = Init_priv (gpd_fan_init_priv HZ q now)) /\
  ((forall q, In q gpd_module_quirks -> board_name q <> name) ->
     gpd_fan_init HZ name dmi now
     = match dmi with
       | None => Init_null_deref
       | Some None => Init_error (- ENODEV)
       | Some (Some q) => Init_priv (gpd_fan_init_priv HZ q now)
       end).
Proof.
  split.
  - intros q Hin <-. unfold gpd_fan_init.
    destruct Hin as [<- | [<- | [<- | []]]]; reflexivity.
  - intros Hnone. unfold gpd_fan_init.
    pose proof (match_module_quirk_spec name gpd_module_quirks) as Hspec.
    destruct (match_module_quirk name gpd_module_quirks) as [q |].
    + destruct Hspec as (Hin & Hn). now contradiction (Hnone q Hin).
    + destruct dmi as [[q |] |]; reflexivity.
Qed.

Lemma init_board_selection_witness :
  gpd_fan_init 1000 "win4" None 5000
  = Init_priv (gpd_fan_init_priv 1000 gpd_win4_quirk 5000) /\
  gpd_fan_init 1000 "" None 5000 = Init_null_deref /\
  gpd_fan_init 1000 "" (Some (Some gpd_wm2_quirk)) 5000
  = Init_priv (gpd_fan_init_priv 1000 gpd_wm2_quirk 5000).
Proof.
  assert (Hnone : forall q, In q gpd_module_quirks -> board_name q <> "")
    by (intros q [<- | [<- | [<- | []]]]; discriminate).
  split; [| split].
  - apply (proj1 (init_board_selection 1000 "win4" None 5000)
             gpd_win4_quirk).
    + right; left; reflexivity.
    + reflexivity.
  - apply (proj2 (init_board_selection 1000 "" None 5000) Hnone).
  - apply (proj2 (init_board_selection 1000 ""
                    (Some (Some gpd_wm2_quirk)) 5000) Hnone).
Defined.

(** X18: the first read of fan1_input after [gpd_fan_init].  The time
    stamp is set [HZ] ticks back, so a read in the very tick of the
    initialisation still finds the interval not exceeded and returns the
    initial cached 0 without touching the EC.  A read at any later tick
    does not answer from the cache: it extends the log, and when no wait on
    the lock is interrupted it fetches the two RPM registers over the ports,
    returns the speed they hold and caches it with the current tick. *)
Theorem first_rpm_read_after_init HZ q now d w :
  0 <= HZ < 2 ^ 63 ->
  priv w = gpd_fan_init_priv HZ q now ->
  jiffies w = ulong (now + d) ->
  (d = 0 -> gpd_read_rpm HZ w = (0, w)) /\
  (0 < d < 2 ^ 63 - HZ -> io_log (snd (gpd_read_rpm HZ w)) <> io_log w) /\
  (0 < d < 2 ^ 63 - HZ ->
   In q gpd_module_quirks -> wired q w -> quiet w ->
   let r := gpd_read_rpm HZ w in
   let high := u8 (EC.peek (ec w) (rpm_read q)) in
   let low := u8 (EC.peek (ec w) (rpm_read q + 1)) in
   fst r = rpm_in_ram q (ec w) /\
   fan_speed_cached (priv (snd r)) = rpm_in_ram q (ec w) /\
   fan_speed_last_update (priv (snd r)) = jiffies w /\
   exists t1 t2,
     io_log (snd r)
     = io_log w ++ t1 ++ read_txn q (rpm_read q) high
       ++ read_txn q (rpm_read q + 1) low ++ t2).
Proof.
  intros HHZ Hp Hj.
  assert (Hlast : fan_speed_last_update (priv w) = ulong (now - HZ))
    by now rewrite Hp.
  assert (Hcache : fan_speed_cached (priv w) = 0) by now rewrite Hp.
  assert (Hquirk : quirk (priv w) = q) by now rewrite Hp.
  assert (He : 0 <= d < 2 ^ 63 - HZ ->
               ulong (jiffies w - fan_speed_last_update (priv w)) = d + HZ).
  { intros Hd. rewrite Hj, Hlast. unfold ulong.
    change (2 ^ 63) with 9223372036854775808 in *.
    change (2 ^ 64) with 18446744073709551616 in *.
    Z.div_mod_to_equations. lia. }
  assert (Hstale : 0 < d < 2 ^ 63 - HZ ->
            time_after (jiffies w)
              (ulong (fan_speed_last_update (priv w) + HZ)) = true).
  { intros Hd. rewrite time_after_elapsed by (rewrite ?He; lia).
    rewrite He by lia. apply Z.ltb_lt. lia. }
  split; [| split].
  - intros ->. rewrite gpd_read_rpm_fresh; [now rewrite Hcache |].
    rewrite time_after_elapsed by (rewrite ?He; lia).
    rewrite He by lia. apply Z.ltb_ge. lia.
  - intros Hd. apply grows_neq.
    apply (gpd_read_rpm_stale HZ w). now apply Hstale.
  - intros Hd Hin Hw Hs.
    exact (gpd_read_rpm_refresh_quiet HZ q w Hin Hquirk Hw Hs (Hstale Hd)).
Qed.

Lemma first_rpm_read_after_init_witness :
  gpd_read_rpm 1000 win_mini_at_init = (0, win_mini_at_init) /\
  io_log (snd (gpd_read_rpm 1000 (at_time 5001 win_mini_at_init))) <> [] /\
  (let q := gpd_win_mini_quirk in
   let r := gpd_read_rpm 1000 (at_time 5001 win_mini_at_init) in
   fst r = 1200 /\
   fan_speed_cached (priv (snd r)) = 1200 /\
   fan_speed_last_update (priv (snd r)) = 5001 /\
   exists t1 t2,
     io_log (snd r)
     = t1 ++ read_txn q 0x0478 0x04 ++ read_txn q 0x0479 0xB0 ++ t2).
Proof.
  split; [| split].
  - apply (first_rpm_read_after_init 1000 gpd_win_mini_quirk 5000 0
             win_mini_at_init); [lia | reflexivity | reflexivity | reflexivity].
  - apply (first_rpm_read_after_init 1000 gpd_win_mini_quirk 5000 1
             (at_time 5001 win_mini_at_init));
      [lia | reflexivity | reflexivity | lia].
  - apply (first_rpm_read_after_init 1000 gpd_win_mini_quirk 5000 1
             (at_time 5001 win_mini_at_init));
      [ lia | reflexivity | reflexivity | lia
      | left; reflexivity
      | repeat split; exact win_mini_ports
      | constructor ].
Defined.

(** ** Invariant of the private data *)

Lemma read_pwm_keeps_cache_byte HZ w :
  is_u8 (read_pwm_cached (priv w)) ->
  is_u8 (read_pwm_cached (priv (snd (gpd_read_pwm HZ w)))).
Proof.
  intros Hc.
  unfold gpd_read_pwm, the_quirk, bind, get, modify_priv, ret.
  cbv beta iota zeta.
  destruct (board (quirk (priv w))); try exact Hc.
  destruct (time_after _ _); cbv beta iota zeta; [| exact Hc].
  pose proof (framed_wm2_read_pwm w) as (Hp & _).
  destruct (gpd_wm2_read_pwm_uncached w) as [r w1]. cbn [snd] in Hp.
  destruct (r <? 0); cbn.
  - now rewrite Hp.
  - apply u8_range.
Qed.

(** X19: [gpd_fan_init] establishes, and every hwmon callback and the
    remove hook keep, that the stored mode is Disabled, Manual or Automatic
    and that the stored duty and the two caches hold values of their C
    types, whatever the [long] written, the EC and the interruptions. *)
Theorem private_data_invariant HZ type attr val w :
  is_long val ->
  (forall q now, priv_inv (gpd_fan_init_priv HZ q now)) /\
  (priv_inv (priv w) ->
   priv_inv (priv (snd (gpd_fan_hwmon_read HZ type attr val w))) /\
   priv_inv (priv (snd (gpd_fan_hwmon_write type attr val w))) /\
   priv_inv (priv (snd (gpd_fan_remove w)))).
Proof.
  intros Hlong. split.
  { intros q now. unfold priv_inv, is_u8, is_u16. cbn.
    split; [auto |]. lia. }
  intros Hinv. pose proof Hinv as (Hm & Hv & Hs & Hc). split; [| split].
  - unfold gpd_fan_hwmon_read, bind, get, ret.
    destruct type; try exact Hinv.
    + destruct (attr =? hwmon_fan_input); [| exact Hinv].
      destruct (read_rpm_keeps_control HZ w) as (_ & H2 & H3 & H4 & _).
      destruct (gpd_read_rpm_result HZ w Hs) as (_ & Hs').
      destruct (gpd_read_rpm HZ w) as [r w1]. cbn [snd] in *.
      destruct (r <? 0); cbn [snd]; unfold priv_inv;
        rewrite H2, H3, H4; auto.
    + destruct (attr =? hwmon_pwm_enable); [exact Hinv |].
      destruct (attr =? hwmon_pwm_input); [| exact Hinv].
      destruct (read_pwm_keeps_control HZ w) as (_ & H2 & H3 & H4 & _).
      pose proof (read_pwm_keeps_cache_byte HZ w Hc) as Hc'.
      destruct (gpd_read_pwm HZ w) as [r w1]. cbn [snd] in *.
      destruct (r <? 0); cbn [snd]; unfold priv_inv;
        rewrite H2, H3, H4; auto.
  - unfold gpd_fan_hwmon_write, bind, get, ret, modify_priv.
    destruct type; try exact Hinv.
    destruct (attr =? hwmon_pwm_enable).
    { rewrite (in_range_mode val Hlong).
      destruct (Z.leb_spec 0 val), (Z.leb_spec val 2); cbn [andb negb];
        try exact Hinv.
      cbv beta iota zeta.
      pose proof (framed_set_pwm_enable
                    (pwm_enable (priv (with_priv (set_pwm_enable val) w)))
                    (with_priv (set_pwm_enable val) w)) as (Hp & _).
      unfold priv_inv. rewrite Hp.
      cbn [priv with_priv set_pwm_enable pwm_enable pwm_value
           fan_speed_cached read_pwm_cached].
      split; [| auto]. unfold DISABLE, MANUAL, AUTOMATIC. lia. }
    destruct (attr =? hwmon_pwm_input); [| exact Hinv].
    cbv beta iota zeta.
    pose proof (framed_write_pwm (u8 (clamp_val val 0 255))
                  (with_priv (set_pwm_value (u8 (clamp_val val 0 255))) w))
      as (Hp & _).
    unfold priv_inv. rewrite Hp.
    cbn [priv with_priv set_pwm_value pwm_enable pwm_value
         fan_speed_cached read_pwm_cached].
    split; [exact Hm |]. split; [apply u8_range | auto].
  - rewrite gpd_fan_remove_eq. cbn [snd].
    pose proof (framed_set_pwm_enable AUTOMATIC
                  (with_priv (set_pwm_enable AUTOMATIC) w)) as (Hp & _).
    unfold priv_inv. rewrite Hp.
    cbn [priv with_priv set_pwm_enable pwm_enable pwm_value
         fan_speed_cached read_pwm_cached].
    split; auto.
Qed.

Lemma private_data_invariant_witness :
  priv_inv (priv win_mini_at_init) /\
  priv_inv
    (priv (snd (gpd_fan_hwmon_write hwmon_pwm hwmon_pwm_input 1000
                  win_mini_at_init))).
Proof.
  assert (Hl : is_long 1000) by (unfold is_long; lia).
  destruct (private_data_invariant 1000 hwmon_pwm hwmon_pwm_input 1000
              win_mini_at_init Hl) as (Hinit & Hkeep).
  pose proof (Hinit gpd_win_mini_quirk 5000) as H0.
  split; [exact H0 |]. apply (Hkeep H0).
Defined.

(** X20: the mode and the duty read back as written, whether or not the
    EC write behind them succeeded.  After an accepted write of
    pwm1_enable, a read of pwm1_enable returns that mode without touching
    the EC; on win-mini and win4, after a write of pwm1 a read of pwm1
    returns the clamped duty without touching the EC. *)
Theorem mode_and_duty_read_back HZ val out w :
  is_long val ->
  let wm := snd (gpd_fan_hwmon_write hwmon_pwm hwmon_pwm_enable val w) in
  let wd := snd (gpd_fan_hwmon_write hwmon_pwm hwmon_pwm_input val w) in
  (0 <= val <= 2 ->
   gpd_fan_hwmon_read HZ hwmon_pwm hwmon_pwm_enable out wm = ((0, val), wm)) /\
  (board (quirk (priv w)) <> win_max_2 ->
   gpd_fan_hwmon_read HZ hwmon_pwm hwmon_pwm_input out wd
   = ((0, clamp_val val 0 255), wd)).
Proof.
  intros Hlong. cbv zeta. split.
  - intros Hval.
    rewrite hwmon_write_enable_valid
      by (rewrite (in_range_mode val Hlong);
          destruct (Z.leb_spec 0 val), (Z.leb_spec val 2); try reflexivity; lia).
    pose proof (framed_set_pwm_enable val (with_priv (set_pwm_enable val) w))
      as (Hp & _).
    unfold gpd_fan_hwmon_read, bind, get, ret.
    cbn [Z.eqb hwmon_pwm_enable Pos.eqb]. rewrite Hp. reflexivity.
  - intros Hb.
    pose proof (clamp_val_duty val) as Hc.
    unfold gpd_fan_hwmon_write, bind, modify_priv.
    cbn [Z.eqb hwmon_pwm_enable hwmon_pwm_input]. cbv beta iota zeta.
    rewrite (u8_small _ Hc).
    set (w0 := with_priv (set_pwm_value (clamp_val val 0 255)) w).
    pose proof (framed_write_pwm (clamp_val val 0 255) w0) as (Hp & _).
    unfold gpd_fan_hwmon_read, gpd_read_pwm, the_quirk, bind, get, ret.
    cbn [Z.eqb hwmon_pwm_enable hwmon_pwm_input]. cbv beta iota zeta.
    rewrite Hp.
    change (quirk (priv w0)) with (quirk (priv w)).
    unfold is_u8 in Hc.
    destruct (board (quirk (priv w))); try (now contradiction Hb);
      cbv beta iota zeta; rewrite ?Hp;
      change (pwm_value (priv w0)) with (clamp_val val 0 255);
      (destruct (Z.ltb_spec (clamp_val val 0 255) 0); [lia | reflexivity]).
Qed.

Lemma mode_and_duty_read_back_witness :
  fst (gpd_fan_hwmon_read 1000 hwmon_pwm hwmon_pwm_enable 9
         (snd (gpd_fan_hwmon_write hwmon_pwm hwmon_pwm_enable 1
                 wm2_first_wait_interrupted))) = (0, 1) /\
  fst (gpd_fan_hwmon_read 1000 hwmon_pwm hwmon_pwm_input 9
         (snd (gpd_fan_hwmon_write hwmon_pwm hwmon_pwm_input 300
                 win4_first_wait_interrupted))) = (0, 255).
Proof.
  split.
  - rewrite (proj1 (mode_and_duty_read_back 1000 1 9
                      wm2_first_wait_interrupted
                      ltac:(unfold is_long; lia)) ltac:(lia)).
    reflexivity.
  - rewrite (proj2 (mode_and_duty_read_back 1000 300 9
                      win4_first_wait_interrupted
                      ltac:(unfold is_long; lia)) ltac:(discriminate)).
    reflexivity.
Defined.
